(** * snapieimage: the upload pipeline of [server.js]

    A shallow embedding of the Express application in [src/server.js]:
    the bearer-token middleware [authenticateAPIKey], the multer upload
    configuration, [generateSafeFilename], the [POST /upload] handler with
    its [try]/[catch] block, and the global error handler.

    JavaScript strings are sequences of UTF-16 code units, buffers are
    sequences of bytes, the storage directory is a finite map from resolved
    paths to stored WebP files.  The Node.js and npm library calls the
    server makes ([Buffer.from], [crypto.timingSafeEqual], [path.resolve],
    [crypto.randomBytes], multer's [single], sharp's [metadata], [rotate],
    [webp] and [toFile]) are modelled after their documented behaviour. *)

From Stdlib Require Import NArith String Ascii DecimalString DecimalN.
From stdpp Require Import gmap list.

Local Open Scope N_scope.

(** ** JavaScript strings *)

Module JsString.

(** A string is its list of UTF-16 code units. *)
Abbreviation t := (list N).

(** A literal of the source, given by its Latin-1 characters. *)
Definition js (s : string) : t := N_of_ascii <$> list_ascii_of_string s.

(** [String.prototype.startsWith]. *)
Fixpoint startsWith (s prefix : t) {struct prefix} : bool :=
  match prefix, s with
  | [], _ => true
  | _ :: _, [] => false
  | p :: prefix', c :: s' => (c =? p) && startsWith s' prefix'
  end.

(** [String.prototype.substring] with one argument. *)
Definition substring (s : t) (start : nat) : t := drop start s.

(** [String.prototype.includes]. *)
Fixpoint includes (s pat : t) : bool :=
  startsWith s pat ||
  match s with
  | [] => false
  | _ :: s' => includes s' pat
  end.

(** Strict equality [===] of two strings. *)
Definition eqb (a b : t) : bool := bool_decide (a = b).

End JsString.

Import JsString.

(** ** Buffers: [Buffer.from(string)] and [crypto.timingSafeEqual] *)

Module Buffer.

Definition is_high_surrogate (c : N) : bool := (0xD800 <=? c) && (c <=? 0xDBFF).
Definition is_low_surrogate (c : N) : bool := (0xDC00 <=? c) && (c <=? 0xDFFF).

(** The replacement character U+FFFD, which Node writes for a lone
    surrogate. *)
Definition replacement : list N := [0xEF; 0xBF; 0xBD].

Definition utf8_2 (c : N) : list N :=
  [N.lor 0xC0 (N.shiftr c 6); N.lor 0x80 (N.land c 0x3F)].

Definition utf8_3 (c : N) : list N :=
  [N.lor 0xE0 (N.shiftr c 12);
   N.lor 0x80 (N.land (N.shiftr c 6) 0x3F);
   N.lor 0x80 (N.land c 0x3F)].

Definition utf8_4 (hi lo : N) : list N :=
  let cp := 0x10000 + (hi - 0xD800) * 0x400 + (lo - 0xDC00) in
  [N.lor 0xF0 (N.shiftr cp 18);
   N.lor 0x80 (N.land (N.shiftr cp 12) 0x3F);
   N.lor 0x80 (N.land (N.shiftr cp 6) 0x3F);
   N.lor 0x80 (N.land cp 0x3F)].

(** [Buffer.from(s)]: the UTF-8 encoding of the string (the default
    encoding of [Buffer.from] on a string). *)
Fixpoint from (s : JsString.t) : list N :=
  match s with
  | [] => []
  | c :: rest =>
      if c <? 0x80 then c :: from rest
      else if c <? 0x800 then utf8_2 c ++ from rest
      else if is_high_surrogate c then
        match rest with
        | d :: rest' =>
            if is_low_surrogate d then utf8_4 c d ++ from rest'
            else replacement ++ from rest
        | [] => replacement
        end
      else if is_low_surrogate c then replacement ++ from rest
      else utf8_3 c ++ from rest
  end.

End Buffer.

(** ** Errors and results *)

(** A JavaScript [Error] object: its optional [code] property and its
    [message]. *)
Record JsError := mkError {
  code : option JsString.t;
  message : JsString.t
}.

Definition Error (msg : string) : JsError := mkError None (js msg).

(** A computation that returns or throws. *)
Inductive Result (A : Type) : Type :=
| Ok (a : A)
| Throw (e : JsError).
Arguments Ok {A} a.
Arguments Throw {A} e.

#[global] Instance result_ret : MRet Result := fun A a => Ok a.

#[global] Instance result_fmap : FMap Result := fun A B f m =>
  match m with
  | Ok a => Ok (f a)
  | Throw e => Throw e
  end.

#[global] Instance result_bind : MBind Result := fun A B k m =>
  match m with
  | Ok a => k a
  | Throw e => Throw e
  end.

Module Crypto.

(** [crypto.timingSafeEqual(a, b)]: throws a [RangeError] with code
    [ERR_CRYPTO_TIMING_SAFE_EQUAL_LENGTH] when the byte lengths differ,
    and otherwise tells whether the two buffers hold the same bytes. *)
Definition timingSafeEqual (a b : list N) : Result bool :=
  if bool_decide (length a = length b)
  then Ok (bool_decide (a = b))
  else Throw (mkError (Some (js "ERR_CRYPTO_TIMING_SAFE_EQUAL_LENGTH"))
                      (js "Input buffers must have the same byte length")).

End Crypto.

(** ** [path.resolve] (POSIX) *)

Module Path.

Definition slash : N := 47.

(** The pieces of a path between its separators; an empty piece stands
    for a doubled, leading or trailing separator. *)
Fixpoint split (s : JsString.t) : list JsString.t :=
  match s with
  | [] => [[]]
  | c :: r =>
      if c =? slash then [] :: split r
      else match split r with
           | seg :: segs => (c :: seg) :: segs
           | [] => [[c]]
           end
  end.

(** One step of Node's [normalizeString]: the segments kept so far are
    held innermost first.  Empty segments and [.] are dropped, [..]
    removes the segment before it; above the root it is dropped, or kept
    when [allowAboveRoot] is set. *)
Definition normalize_step (allowAboveRoot : bool)
    (kept : list JsString.t) (seg : JsString.t) : list JsString.t :=
  if bool_decide (seg = []) || bool_decide (seg = js ".") then kept
  else if bool_decide (seg = js "..") then
    match kept with
    | top :: below =>
        if allowAboveRoot && bool_decide (top = js "..") then seg :: kept
        else below
    | [] => if allowAboveRoot then [seg] else []
    end
  else seg :: kept.

Definition normalize_segments (allowAboveRoot : bool)
    (segs : list JsString.t) : list JsString.t :=
  rev (fold_left (normalize_step allowAboveRoot) segs []).

Fixpoint join (segs : list JsString.t) : JsString.t :=
  match segs with
  | [] => []
  | [seg] => seg
  | seg :: rest => seg ++ slash :: join rest
  end.

Definition normalizeString (path : JsString.t) (allowAboveRoot : bool) : JsString.t :=
  join (normalize_segments allowAboveRoot (split path)).

Definition isAbsolute (p : JsString.t) : bool :=
  match p with
  | c :: _ => c =? slash
  | [] => false
  end.

(** The loop of [path.resolve]: the arguments are visited from the last
    to the first, then the working directory, until an absolute one has
    been prepended; empty entries are skipped. *)
Fixpoint resolve_loop (paths : list JsString.t) (resolvedPath : JsString.t)
    : JsString.t * bool :=
  match paths with
  | [] => (resolvedPath, false)
  | p :: earlier =>
      if bool_decide (p = []) then resolve_loop earlier resolvedPath
      else
        let resolvedPath' := p ++ slash :: resolvedPath in
        if isAbsolute p then (resolvedPath', true)
        else resolve_loop earlier resolvedPath'
  end.

(** [path.resolve(...args)] in a process whose working directory is
    [cwd]. *)
Definition resolve (cwd : JsString.t) (args : list JsString.t) : JsString.t :=
  let '(resolvedPath, resolvedAbsolute) := resolve_loop (rev args ++ [cwd]) [] in
  let normalized := normalizeString resolvedPath (negb resolvedAbsolute) in
  if resolvedAbsolute then slash :: normalized
  else if bool_decide (normalized = []) then js "." else normalized.

(** The backwards scan of [path.dirname] over the characters after the
    first one, given last first: trailing separators are skipped, then
    the last segment, and the characters before the separator that
    precedes it are returned (still last first). *)
Fixpoint dirname_scan (rev_tail : JsString.t) (matchedSlash : bool)
    : option JsString.t :=
  match rev_tail with
  | [] => None
  | c :: before =>
      if c =? slash then
        if matchedSlash then dirname_scan before matchedSlash
        else Some before
      else dirname_scan before false
  end.

(** [path.dirname]: the directory component of a path. *)
Definition dirname (path : JsString.t) : JsString.t :=
  match path with
  | [] => js "."
  | c0 :: tail =>
      let hasRoot := c0 =? slash in
      match dirname_scan (rev tail) true with
      | None => if hasRoot then js "/" else js "."
      | Some [] => if hasRoot then js "//" else [c0]
      | Some before => c0 :: rev before
      end
  end.

End Path.

(** ** Configuration, requests, responses and the storage directory *)

(** The [config] object of server.js:11-16, once the environment has been
    read. *)
Record Config := mkConfig {
  port : N;
  apiKey : JsString.t;
  uploadDir : JsString.t;
  baseUrl : JsString.t
}.

(** The start-up check of server.js:19-23: the process exits unless the
    key has at least 32 characters. *)
Definition startup_ok (config : Config) : bool :=
  negb (bool_decide (apiKey config = []) || (length (apiKey config) <? 32)%nat).

(** JSON bodies as the handlers build them. *)
#[warnings="-register-all"]
Inductive Json :=
| JString (s : JsString.t)
| JNumber (n : N)
| JBool (b : bool)
| JObject (fields : list (string * Json)).

Fixpoint field (name : string) (fields : list (string * Json)) : option Json :=
  match fields with
  | [] => None
  | (k, v) :: rest => if String.eqb k name then Some v else field name rest
  end.

Definition get (name : string) (j : Json) : option Json :=
  match j with
  | JObject fields => field name fields
  | _ => None
  end.

Record Response := mkResponse {
  status : N;
  body : Json
}.

(** A WebP file as sharp writes it. *)
Record WebP := mkWebP {
  webp_width : N;
  webp_height : N;
  webp_frames : N;
  webp_quality : N;
  webp_effort : N
}.

(** A file in the upload directory: an encoded image, or the empty file
    that a write leaves behind when it fails after the file was created. *)
Inductive StoredFile :=
| WebPFile (image : WebP)
| EmptyFile.

(** The file system below the storage root: resolved path to file. *)
Abbreviation Store := (gmap (list N) StoredFile).

(** ** sharp *)

Module Sharp.

(** What [metadata()] reports: the format tag, the pixel size of one
    frame as stored (the EXIF orientation is not applied), the EXIF
    orientation tag when there is one, and the number of frames. *)
Record Metadata := mkMetadata {
  format : JsString.t;
  width : N;
  height : N;
  orientation : option N;
  pages : N
}.

(** What the bytes of an uploaded buffer hold, as libvips sees them:
    nothing it has a loader for, a header it cannot read, or an image
    whose header loads and whose pixel data decodes or fails with a
    loader message. *)
Inductive Content :=
| Unsupported
| CorruptHeader (detail : JsString.t)
| Image (meta : Metadata) (pixel_fault : option JsString.t).

Record Input := mkInput {
  byteLength : N;
  content : Content
}.

(** The options of the constructor and of [webp()] that server.js sets. *)
Record InputOptions := { animated : bool }.
Record WebpOptions := { quality : N; effort : N; webp_animated : bool }.

(** [sharp(buffer, options)] followed by reading the header: the
    constructor refuses an empty buffer, the loader an unreadable one. *)
Definition open (input : Input) : Result Metadata :=
  if byteLength input =? 0 then Throw (Error "Input Buffer is empty")
  else match content input with
       | Unsupported => Throw (Error "Input buffer contains unsupported image format")
       | CorruptHeader detail =>
           Throw (mkError None (js "Input buffer has corrupt header: " ++ detail))
       | Image meta _ => Ok meta
       end.

(** [sharp(buffer).metadata()]. *)
Definition metadata (input : Input) : Result Metadata := open input.

(** [rotate()] without an angle: orientations 5 to 8 turn the image by a
    quarter, which exchanges width and height. *)
Definition rotate (o : option N) (size : N * N) : N * N :=
  match o with
  | Some n => if (5 <=? n) && (n <=? 8) then (size.2, size.1) else size
  | None => size
  end.

(** Whether the disk takes the encoded file; when it does not (no
    space left, for one), the write fails with a message of libvips. *)
Inductive WriteOutcome :=
| Written
| WriteFails (msg : JsString.t).

(** [sharp(buffer, options).rotate().webp(webpOptions).toFile(path)]:
    with [animated] every frame is read, otherwise the first one; the
    frames read are the frames encoded.  The promise resolves or rejects,
    and the store is what the call leaves on disk: a write that fails has
    created the file and leaves it empty, and the error it rejects with
    is an [Error] of sharp, which has a message and no [code]. *)
Definition toFile (input : Input) (options : InputOptions) (webpOptions : WebpOptions)
    (path : JsString.t) (disk : WriteOutcome) (store : Store) : Result unit * Store :=
  match open input with
  | Throw e => (Throw e, store)
  | Ok meta =>
      match content input with
      | Image _ (Some fault) => (Throw (mkError None fault), store)
      | _ =>
          let frames := if animated options then pages meta else 1 in
          let size := rotate (orientation meta) (width meta, height meta) in
          match disk with
          | Written =>
              (Ok (),
               <[path := WebPFile (mkWebP size.1 size.2 frames
                                     (quality webpOptions) (effort webpOptions))]> store)
          | WriteFails msg => (Throw (mkError None msg), <[path := EmptyFile]> store)
          end
      end
  end.

End Sharp.

(** ** multer *)

Module Multer.

(** A file part of a multipart body. *)
Record File := mkFile {
  fieldname : JsString.t;
  originalname : JsString.t;
  mimetype : JsString.t;
  buffer : Sharp.Input
}.

Record Limits := { fileSize : N; files : N }.

(** How [upload.single(name)] calls back. *)
Inductive Outcome :=
| MulterError (code : JsString.t) (msg : JsString.t)
| OtherError (e : JsError)
| Parsed (file : option File).

(** [multer({storage: memoryStorage(), limits, fileFilter}).single(name)]
    on the file parts of a request: a part under another field name is
    unexpected, the filter sees the part before its content is read,
    busboy stops reading a content when its size reaches [fileSize] and
    reports the limit, so that a content of [fileSize] bytes or more
    exceeds it, and so do more than [files] parts. *)
Definition single (limits : Limits) (fileFilter : File -> Result bool)
    (name : JsString.t) (parts : list File) : Outcome :=
  match parts with
  | [] => Parsed None
  | part :: more =>
      if negb (JsString.eqb (fieldname part) name)
      then MulterError (js "LIMIT_UNEXPECTED_FILE") (js "Unexpected field")
      else match fileFilter part with
           | Throw e => OtherError e
           | Ok false => Parsed None
           | Ok true =>
               if fileSize limits <=? Sharp.byteLength (buffer part)
               then MulterError (js "LIMIT_FILE_SIZE") (js "File too large")
               else if files limits <? N.of_nat (length parts)
               then MulterError (js "LIMIT_FILE_COUNT") (js "Too many files")
               else Parsed (Some part)
           end
  end.

End Multer.

(** ** server.js *)

(** What a request handler sees of the process around it: the working
    directory ([process.cwd()]), the clock ([Date.now()], the milliseconds
    elapsed since the epoch), the operating system's random bytes, and
    whether the disk takes the file. *)
Record Env := mkEnv {
  cwd : JsString.t;
  now : N;
  entropy : nat -> N;
  disk : Sharp.WriteOutcome
}.

(** The parts of an HTTP request the upload route reads. *)
Record Request := mkRequest {
  authorization : option JsString.t;
  file_parts : list Multer.File
}.

(** A middleware either answers the request or passes it on. *)
Inductive Step :=
| Respond (r : Response)
| Next.

(** server.js:42-62. *)
Definition authenticateAPIKey (config : Config) (req : Request) : Result Step :=
  match authorization req with
  | None =>
      Ok (Respond (mkResponse 401 (JObject
        [("error"%string, JString (js "Missing or invalid authorization header"));
         ("message"%string, JString (js "Authorization header must be in format: Bearer YOUR_API_KEY"))])))
  | Some authHeader =>
      if bool_decide (authHeader = []) || negb (startsWith authHeader (js "Bearer "))
      then
        Ok (Respond (mkResponse 401 (JObject
          [("error"%string, JString (js "Missing or invalid authorization header"));
           ("message"%string, JString (js "Authorization header must be in format: Bearer YOUR_API_KEY"))])))
      else
        let token := substring authHeader 7 in
        let expectedKey := apiKey config in
        let invalid := Ok (Respond (mkResponse 403 (JObject
          [("error"%string, JString (js "Invalid API key"))]))) in
        if negb (bool_decide (length token = length expectedKey)) then invalid
        else
          same ← Crypto.timingSafeEqual (Buffer.from token) (Buffer.from expectedKey);
          if negb same then invalid else Ok Next
  end.

(** server.js:65-79. *)
Definition limits : Multer.Limits :=
  {| Multer.fileSize := 10 * 1024 * 1024; Multer.files := 1 |}.

Definition allowedMimes : list JsString.t :=
  [js "image/jpeg"; js "image/png"; js "image/webp"; js "image/gif"].

Definition fileFilter (file : Multer.File) : Result bool :=
  if existsb (JsString.eqb (Multer.mimetype file)) allowedMimes
  then Ok true
  else Throw (Error "Invalid file type. Only JPEG, PNG, WebP, and GIF images are allowed.").

Definition upload_single : list Multer.File -> Multer.Outcome :=
  Multer.single limits fileFilter (js "image").

(** [crypto.randomBytes(n)]. *)
Definition randomBytes (n : nat) (source : nat -> N) : list N :=
  (fun i => source i mod 256) <$> seq 0 n.

Definition hex_digit (d : N) : N := if d <? 10 then 48 + d else 87 + d.

(** [buffer.toString('hex')]. *)
Definition toString_hex (bytes : list N) : JsString.t :=
  bytes ≫= (fun b => [hex_digit (b / 16); hex_digit (b mod 16)]).

(** A number of milliseconds in a template literal: its decimal digits. *)
Definition number_toString (n : N) : JsString.t :=
  js (NilZero.string_of_uint (N.to_uint n)).

(** server.js:82-86. *)
Definition generateSafeFilename (env : Env) : JsString.t :=
  let timestamp := now env in
  let randomHash := toString_hex (randomBytes 8 (entropy env)) in
  number_toString timestamp ++ js "-" ++ randomHash ++ js ".webp".

(** server.js:125-130, the check that the output path stays under the
    upload directory. *)
Definition path_check (config : Config) (env : Env) (filename : JsString.t) : bool :=
  let outputPath := Path.resolve (cwd env) [uploadDir config; filename] in
  startsWith outputPath (Path.resolve (cwd env) [uploadDir config]).

(** server.js:125-157: the [try] block once [metadata] has been read and
    [filename] generated. *)
Definition store_image (config : Config) (env : Env) (file : Multer.File)
    (metadata : Sharp.Metadata) (filename : JsString.t) (store : Store)
    : Result Response * Store :=
  let isGif := JsString.eqb (Sharp.format metadata) (js "gif") in
  let outputPath := Path.resolve (cwd env) [uploadDir config; filename] in
  if negb (path_check config env filename)
  then (Throw (Error "Invalid file path"), store)
  else
    let webpOptions :=
      {| Sharp.quality := 80; Sharp.effort := 4; Sharp.webp_animated := isGif |} in
    match Sharp.toFile (Multer.buffer file) {| Sharp.animated := isGif |}
                       webpOptions outputPath (disk env) store with
    | (Throw error, store') => (Throw error, store')
    | (Ok _, store') =>
        let imageUrl := baseUrl config ++ js "/images/" ++ filename in
        (Ok (mkResponse 201 (JObject
               [("success"%string, JBool true);
                ("url"%string, JString imageUrl);
                ("filename"%string, JString filename);
                ("originalFormat"%string, JString (Sharp.format metadata));
                ("size"%string, JObject
                   [("width"%string, JNumber (Sharp.width metadata));
                    ("height"%string, JNumber (Sharp.height metadata))])])),
         store')
    end.

(** server.js:117-157, the whole [try] block: what it returns or throws,
    and the store it leaves. *)
Definition process_image (config : Config) (env : Env) (file : Multer.File)
    (store : Store) : Result Response * Store :=
  match Sharp.metadata (Multer.buffer file) with
  | Throw error => (Throw error, store)
  | Ok metadata => store_image config env file metadata (generateSafeFilename env) store
  end.

(** server.js:159-175, the [catch] block. *)
Definition on_processing_error (error : JsError) : Response :=
  if bool_decide (code error = Some (js "ENOSPC"))
  then mkResponse 507 (JObject
         [("error"%string, JString (js "Insufficient storage space on server."))])
  else if includes (message error) (js "Input buffer")
  then mkResponse 400 (JObject
         [("error"%string, JString (js "Invalid or corrupted image file."))])
  else mkResponse 500 (JObject
         [("error"%string, JString (js "Failed to process image"));
          ("message"%string, JString (message error))]).

(** server.js:99-176, the callback of [upload.single('image')]. *)
Definition upload_callback (config : Config) (env : Env) (outcome : Multer.Outcome)
    (store : Store) : Response * Store :=
  match outcome with
  | Multer.MulterError code msg =>
      if JsString.eqb code (js "LIMIT_FILE_SIZE")
      then (mkResponse 413 (JObject
              [("error"%string, JString (js "File too large. Maximum size is 10MB."))]), store)
      else (mkResponse 400 (JObject [("error"%string, JString msg)]), store)
  | Multer.OtherError err =>
      (mkResponse 400 (JObject [("error"%string, JString (message err))]), store)
  | Multer.Parsed None =>
      (mkResponse 400 (JObject
         [("error"%string, JString
            (js "No image file provided. Use multipart/form-data with field name "
             ++ [34] ++ js "image" ++ [34] ++ js "."))]),
       store)
  | Multer.Parsed (Some file) =>
      match process_image config env file store with
      | (Ok response, store') => (response, store')
      | (Throw error, store') => (on_processing_error error, store')
      end
  end.

(** server.js:180-183, the global error handler. *)
Definition error_handler (err : JsError) : Response :=
  mkResponse 500 (JObject [("error"%string, JString (js "Internal server error"))]).

(** server.js:98: [app.post('/upload', authenticateAPIKey, handler)].
    Express hands an exception thrown by a middleware to the error
    handler. *)
Definition post_upload (config : Config) (env : Env) (req : Request) (store : Store)
    : Response * Store :=
  match authenticateAPIKey config req with
  | Ok (Respond r) => (r, store)
  | Ok Next => upload_callback config env (upload_single (file_parts req)) store
  | Throw err => (error_handler err, store)
  end.

(** The file that [express.static] sends for the path [/images/name]. *)
Definition static_file (config : Config) (env : Env) (store : Store) (name : JsString.t)
    : option StoredFile :=
  store !! Path.resolve (cwd env) [uploadDir config; name].

(** The image that is served for the path [/images/name]: the file that
    [express.static] sends there, when it holds one. *)
Definition served (config : Config) (env : Env) (store : Store) (name : JsString.t)
    : option WebP :=
  match static_file config env store name with
  | Some (WebPFile image) => Some image
  | _ => None
  end.

(** ** The filename pattern of the specification *)

Definition is_digit (c : N) : bool := (48 <=? c) && (c <=? 57).

Definition is_lower_hex (c : N) : bool := is_digit c || ((97 <=? c) && (c <=? 102)).

Fixpoint skip_digits (s : JsString.t) : JsString.t :=
  match s with
  | c :: r => if is_digit c then skip_digits r else s
  | [] => []
  end.

(** Whether a string matches [^\d+-[0-9a-f]{16}\.webp$]: one or more
    digits, a hyphen, exactly sixteen lowercase hexadecimal digits, and
    the extension up to the end. *)
Definition matches_filename_pattern (s : JsString.t) : bool :=
  match s with
  | c :: r =>
      is_digit c &&
      match skip_digits r with
      | d :: rest =>
          (d =? 45) && bool_decide (length (take 16 rest) = 16%nat)
          && forallb is_lower_hex (take 16 rest)
          && bool_decide (drop 16 rest = js ".webp")
      | [] => false
      end
  | [] => false
  end.

(** Reading a name of that shape back: the number its decimal digits
    write, and the bytes its hexadecimal segment writes. *)
Fixpoint take_digits (s : JsString.t) : JsString.t :=
  match s with
  | c :: r => if is_digit c then c :: take_digits r else []
  | [] => []
  end.

Definition read_decimal (s : JsString.t) : option N :=
  if forallb is_digit s
  then N.of_uint <$> NilZero.uint_of_string (string_of_list_ascii (ascii_of_N <$> s))
  else None.

Definition hex_value (c : N) : option N :=
  if is_digit c then Some (c - 48)
  else if (97 <=? c) && (c <=? 102) then Some (c - 87)
  else None.

Fixpoint read_hex (s : JsString.t) : option (list N) :=
  match s with
  | [] => Some []
  | [_] => None
  | hi :: lo :: rest =>
      h ← hex_value hi; l ← hex_value lo; bytes ← read_hex rest;
      Some (16 * h + l :: bytes)
  end.

Definition read_filename (s : JsString.t) : option (N * list N) :=
  match skip_digits s with
  | d :: rest =>
      if (d =? 45) && bool_decide (drop 16 rest = js ".webp")
      then n ← read_decimal (take_digits s); bytes ← read_hex (take 16 rest);
           Some (n, bytes)
      else None
  | [] => None
  end.

(** A file name that names an entry of a directory: not empty, no
    separator in it, and neither [.] nor [..]. *)
Definition plain_name (f : JsString.t) : Prop :=
  f ≠ [] ∧ Forall (λ c, c ≠ Path.slash) f ∧ f ≠ js "." ∧ f ≠ js "..".

(** Two file parts that differ at most in the file name the client
    declared. *)
Definition same_but_name (f f' : Multer.File) : Prop :=
  Multer.fieldname f = Multer.fieldname f'
  ∧ Multer.mimetype f = Multer.mimetype f'
  ∧ Multer.buffer f = Multer.buffer f'.

(** Header values reach the server decoded as Latin-1: every code unit
    of [req.headers.authorization] is below 256. *)
Definition latin1 (s : JsString.t) : Prop := Forall (λ c, c < 256) s.

(** A string of ASCII characters only, as the key generator of the README
    prints ([randomBytes(32).toString('hex')]). *)
Definition ascii_only (s : JsString.t) : Prop := Forall (λ c, c < 128) s.

(** The status codes that the upload route sends. *)
Definition upload_statuses : list N := [201; 400; 401; 403; 413; 500; 507].

(** Two file parts that differ at most in the type the client declared,
    each of them an allowed one. *)
Definition same_but_type (f f' : Multer.File) : Prop :=
  Multer.fieldname f = Multer.fieldname f'
  ∧ Multer.buffer f = Multer.buffer f'
  ∧ Multer.mimetype f ∈ allowedMimes
  ∧ Multer.mimetype f' ∈ allowedMimes.

(** ** Sample requests *)

Module Sample.

Definition key : JsString.t := js "0123456789abcdef0123456789abcdef".

Definition config : Config :=
  mkConfig 3000 key (js "./uploads") (js "http://localhost:3000").

Definition env : Env :=
  mkEnv (js "/srv/image-server") 1709020800000
        (λ i, 37 * N.of_nat i + 200) Sharp.Written.

Definition upload (mimetype : string) (size : N) (content : Sharp.Content) : Multer.File :=
  Multer.mkFile (js "image") (js "../../photo.jpg") (js mimetype)
                (Sharp.mkInput size content).

Definition request (token : JsString.t) (file : Multer.File) : Request :=
  mkRequest (Some (js "Bearer " ++ token)) [file].

(** A 4x3 JPEG whose EXIF orientation is 6 (a quarter turn). *)
Definition rotated_jpeg : Sharp.Content :=
  Sharp.Image (Sharp.mkMetadata (js "jpeg") 4 3 (Some 6) 1) None.

(** An animated WebP of three frames. *)
Definition animated_webp : Sharp.Content :=
  Sharp.Image (Sharp.mkMetadata (js "webp") 2 2 None 3) None.

(** An animated GIF of three frames. *)
Definition animated_gif : Sharp.Content :=
  Sharp.Image (Sharp.mkMetadata (js "gif") 2 2 None 3) None.

(** A JPEG cut off after its header. *)
Definition truncated_jpeg : Sharp.Content :=
  Sharp.Image (Sharp.mkMetadata (js "jpeg") 4 3 None 1)
              (Some (js "VipsJpeg: premature end of JPEG image")).

(** A token as long as the key, whose last character is U+00E9. *)
Definition accented_token : JsString.t :=
  js "0123456789abcdef0123456789abcde" ++ [233].

End Sample.

(** * Properties *)

(** ** The library models on concrete inputs *)

Example startup_ok_sample : startup_ok Sample.config = true.
Proof. reflexivity. Qed.

Example resolve_relative :
  Path.resolve (js "/srv/app") [js "./uploads"; js "1-ab.webp"]
  = js "/srv/app/uploads/1-ab.webp".
Proof. reflexivity. Qed.

Example resolve_dotdot :
  Path.resolve (js "/srv/app") [js "/data//up/../img/"; js "../x"] = js "/data/x".
Proof. reflexivity. Qed.

Example dirname_nested :
  Path.dirname (js "/srv/app/uploads/1-ab.webp") = js "/srv/app/uploads".
Proof. reflexivity. Qed.

Example dirname_root : Path.dirname (js "/1-ab.webp") = js "/".
Proof. reflexivity. Qed.

Example utf8_e_acute : Buffer.from [233] = [0xC3; 0xA9].
Proof. reflexivity. Qed.

Example utf8_euro_sign : Buffer.from [0x20AC] = [0xE2; 0x82; 0xAC].
Proof. reflexivity. Qed.

Example utf8_surrogate_pair : Buffer.from [0xD83D; 0xDE00] = [0xF0; 0x9F; 0x98; 0x80].
Proof. reflexivity. Qed.

Example hex_of_bytes : toString_hex [0; 171; 255] = js "00abff".
Proof. reflexivity. Qed.

Example generated_name :
  generateSafeFilename Sample.env = js "1709020800000-c8ed12375c81a6cb.webp".
Proof. reflexivity. Qed.

Example pattern_rejects_uppercase :
  matches_filename_pattern (js "1709020800000-C8ED12375C81A6CB.webp") = false.
Proof. reflexivity. Qed.

Example pattern_rejects_traversal :
  matches_filename_pattern (js "../1709020800000-c8ed12375c81a6cb.webp") = false.
Proof. reflexivity. Qed.

(** ** Strings *)

Lemma startsWith_app (a b : JsString.t) : startsWith (a ++ b) a = true.
Proof.
  induction a as [|c a IH]; simpl; [done|].
  by rewrite N.eqb_refl, IH.
Qed.

Lemma startsWith_prefix (s p : JsString.t) :
  startsWith s p = true ↔ ∃ rest, s = p ++ rest.
Proof.
  revert s. induction p as [|c p IH]; intros s; simpl.
  - split; [eauto|done].
  - destruct s as [|d s]; simpl.
    + split; [done|]. by intros [rest ?].
    + rewrite andb_true_iff, N.eqb_eq, IH. split.
      * intros [-> [rest ->]]. eauto.
      * intros [rest Heq]. injection Heq as -> ->. eauto.
Qed.

(** ** Paths *)

Section path_facts.
Import Path.

Lemma split_not_nil s : split s ≠ [].
Proof.
  destruct s as [|c s]; simpl; [done|].
  destruct (c =? slash); [done|]. by destruct (split s).
Qed.

Lemma split_app_slash a b : split (a ++ slash :: b) = split a ++ split b.
Proof.
  induction a as [|c a IH]; simpl; [done|].
  destruct (c =? slash); [by rewrite IH|].
  rewrite IH. pose proof (split_not_nil a). by destruct (split a).
Qed.

Lemma split_no_slash f : Forall (λ c, c ≠ slash) f → split f = [f].
Proof.
  induction 1 as [|c f Hc _ IH]; simpl; [done|].
  apply N.eqb_neq in Hc. by rewrite Hc, IH.
Qed.

Lemma resolve_loop_acc paths acc :
  resolve_loop paths acc
  = ((resolve_loop paths []).1 ++ acc, (resolve_loop paths []).2).
Proof.
  revert acc. induction paths as [|p earlier IH]; intros acc; simpl; [done|].
  case_bool_decide; [apply IH|].
  destruct (isAbsolute p); simpl.
  - by rewrite <- app_assoc.
  - rewrite (IH (p ++ slash :: acc)), (IH (p ++ [slash])); simpl.
    by rewrite <- !app_assoc.
Qed.

(** What the loop has collected is empty or ends with a separator. *)
Lemma resolve_loop_shape paths :
  (resolve_loop paths []).1 = [] ∨ ∃ y, (resolve_loop paths []).1 = y ++ [slash].
Proof.
  induction paths as [|p earlier IH]; simpl; [by left|].
  case_bool_decide; [done|].
  destruct (isAbsolute p); simpl; [right; eauto|].
  rewrite resolve_loop_acc; simpl. right.
  exists ((resolve_loop earlier []).1 ++ p). by rewrite <- app_assoc.
Qed.

Lemma resolve_loop_absolute paths cwd :
  isAbsolute cwd = true → (resolve_loop (paths ++ [cwd]) []).2 = true.
Proof.
  intros Habs. generalize (@nil N).
  induction paths as [|p earlier IH]; intros acc; simpl.
  - case_bool_decide; [by subst|]. by rewrite Habs.
  - case_bool_decide; [apply IH|]. destruct (isAbsolute p); [done|apply IH].
Qed.

Lemma normalize_step_plain a kept f : plain_name f → normalize_step a kept f = f :: kept.
Proof.
  intros (? & _ & ? & ?). unfold normalize_step.
  by rewrite !bool_decide_eq_false_2.
Qed.

Lemma normalize_step_nonempty a kept seg :
  Forall (λ s, s ≠ []) kept → Forall (λ s, s ≠ []) (normalize_step a kept seg).
Proof.
  intros Hk. unfold normalize_step.
  destruct (bool_decide (seg = []) || _) eqn:Hskip; [done|].
  apply orb_false_iff in Hskip as [Hne%bool_decide_eq_false _].
  destruct (bool_decide (seg = js ".."))%bool.
  - destruct kept as [|top below]; [destruct a; by repeat constructor|].
    destruct (a && _); [by constructor|]. by inversion Hk.
  - by constructor.
Qed.

Lemma normalize_segments_nonempty a segs :
  Forall (λ s, s ≠ []) (normalize_segments a segs).
Proof.
  unfold normalize_segments. apply Forall_rev.
  assert (Forall (λ s : list N, s ≠ []) []) as Hnil by constructor.
  revert Hnil. generalize (@nil (list N)).
  induction segs as [|seg segs IH]; intros kept Hk; simpl; [done|].
  by apply IH, normalize_step_nonempty.
Qed.

Lemma join_snoc segs f :
  join (segs ++ [f]) = if bool_decide (segs = []) then f else join segs ++ slash :: f.
Proof.
  induction segs as [|seg segs IH]; [done|].
  rewrite bool_decide_eq_false_2 by done.
  destruct segs as [|seg' segs]; [done|].
  change (join ((seg :: seg' :: segs) ++ [f]))
    with (seg ++ slash :: join ((seg' :: segs) ++ [f])).
  rewrite IH, bool_decide_eq_false_2 by done.
  change (join (seg :: seg' :: segs)) with (seg ++ slash :: join (seg' :: segs)).
  by rewrite <- app_assoc.
Qed.

Lemma join_nonempty segs : segs ≠ [] → Forall (λ s, s ≠ []) segs → join segs ≠ [].
Proof.
  destruct segs as [|seg segs]; [done|]. intros _ Hne.
  inversion Hne; subst. simpl. destruct segs; [done|]. by destruct seg.
Qed.

Lemma resolve_loop_plain f earlier :
  plain_name f →
  resolve_loop (f :: earlier) []
  = ((resolve_loop earlier []).1 ++ f ++ [slash], (resolve_loop earlier []).2).
Proof.
  intros (Hne & Hslash & _). simpl.
  assert (isAbsolute f = false) as ->.
  { destruct f as [|c f]; [done|]. inversion Hslash; subst. by apply N.eqb_neq. }
  rewrite bool_decide_eq_false_2 by done. apply resolve_loop_acc.
Qed.

(** Resolving a plain file name against a directory appends it to the
    resolved directory. *)
Lemma resolve_plain cwd root f :
  isAbsolute cwd = true → plain_name f →
  ∃ segs, Forall (λ s, s ≠ []) segs
    ∧ resolve cwd [root] = slash :: join segs
    ∧ resolve cwd [root; f] = slash :: join (segs ++ [f]).
Proof.
  intros Habs Hf. pose proof Hf as (Hne & Hslash & _).
  unfold resolve.
  change (rev [root; f] ++ [cwd]) with (f :: ([root] ++ [cwd])).
  change (rev [root] ++ [cwd]) with ([root] ++ [cwd]).
  rewrite resolve_loop_plain by done.
  pose proof (resolve_loop_absolute [root] cwd Habs) as Ha.
  pose proof (resolve_loop_shape ([root] ++ [cwd])) as Hshape.
  destruct (resolve_loop ([root] ++ [cwd]) []) as [x abs].
  cbn [fst snd] in *. subst abs. cbn [negb].
  assert (∃ pre, split x = pre ++ [[]] ∧ split (x ++ f ++ [slash]) = pre ++ [f; []])
    as (pre & Hx & Hxf).
  { destruct Hshape as [-> | [y ->]].
    - exists []. split; [done|].
      rewrite app_nil_l, split_app_slash, split_no_slash by done. reflexivity.
    - exists (split y). rewrite <- app_assoc.
      change ([slash] ++ f ++ [slash]) with (slash :: (f ++ slash :: [])).
      rewrite !split_app_slash, (split_no_slash f) by done. split; reflexivity. }
  exists (normalize_segments false pre). split; [apply normalize_segments_nonempty|].
  unfold normalizeString, normalize_segments. rewrite Hx, Hxf, !fold_left_app.
  cbn [fold_left]. rewrite (normalize_step_plain _ _ f) by done.
  unfold normalize_step at 1 3. rewrite !bool_decide_eq_true_2 by done.
  cbn [orb rev]. done.
Qed.

Lemma dirname_scan_name g r :
  Forall (λ c, c ≠ slash) g → dirname_scan (g ++ slash :: r) false = Some r.
Proof.
  induction 1 as [|c g Hc _ IH]; simpl.
  - unfold slash. done.
  - apply N.eqb_neq in Hc. by rewrite Hc.
Qed.

Lemma dirname_scan_none g m : Forall (λ c, c ≠ slash) g → dirname_scan g m = None.
Proof.
  intros H. revert m. induction H as [|c g Hc _ IH]; intros m; simpl; [done|].
  apply N.eqb_neq in Hc. by rewrite Hc.
Qed.

(** The directory component of a resolved plain name is the resolved
    directory. *)
Lemma dirname_join segs f :
  Forall (λ s, s ≠ []) segs → plain_name f →
  dirname (slash :: join (segs ++ [f])) = slash :: join segs.
Proof.
  intros Hsegs (Hne & Hslash & _). unfold dirname.
  change (slash =? slash) with true. cbv iota.
  rewrite join_snoc. case_bool_decide as Hnil.
  - subst. rewrite dirname_scan_none by by apply Forall_rev. done.
  - rewrite rev_app_distr. simpl rev. rewrite <- app_assoc. simpl app.
    destruct (rev f) as [|c g] eqn:Hrev.
    { apply (f_equal (@rev N)) in Hrev. rewrite rev_involutive in Hrev. done. }
    assert (Forall (λ c, c ≠ slash) (c :: g)) as Hcg.
    { rewrite <- Hrev. by apply Forall_rev. }
    inversion Hcg as [|?? Hc Hg]; subst. simpl.
    apply N.eqb_neq in Hc. rewrite Hc.
    rewrite dirname_scan_name by done.
    pose proof (join_nonempty segs Hnil Hsegs) as Hj.
    destruct (rev (join segs)) as [|d before] eqn:Hr.
    { apply (f_equal (@rev N)) in Hr. rewrite rev_involutive in Hr. done. }
    by rewrite <- Hr, rev_involutive.
Qed.

End path_facts.

(** ** Generated file names *)

Lemma js_cons c s : js (String c s) = N_of_ascii c :: js s.
Proof. reflexivity. Qed.

Lemma string_of_uint_digits u :
  Forall (λ c, is_digit c = true) (js (NilEmpty.string_of_uint u)).
Proof.
  induction u; simpl NilEmpty.string_of_uint;
    [constructor | rewrite js_cons; constructor; [reflexivity|assumption] ..].
Qed.

Lemma number_toString_digits n :
  ∃ d ds, number_toString n = d :: ds ∧ Forall (λ c, is_digit c = true) (d :: ds).
Proof.
  unfold number_toString, NilZero.string_of_uint.
  destruct (N.to_uint n) as [|u|u|u|u|u|u|u|u|u|u] eqn:Hu;
    [ exists 48, []; split; [reflexivity|by repeat constructor]
    | rewrite <- Hu; pose proof (string_of_uint_digits (N.to_uint n)) as Hd;
      rewrite Hu in Hd |- *; simpl NilEmpty.string_of_uint in *;
      rewrite js_cons in *; eauto .. ].
Qed.

Lemma skip_digits_app ds c rest :
  Forall (λ c, is_digit c = true) ds → is_digit c = false →
  skip_digits (ds ++ c :: rest) = c :: rest.
Proof.
  intros Hds Hc. induction Hds as [|d ds Hd _ IH]; simpl.
  - by rewrite Hc.
  - by rewrite Hd.
Qed.

Lemma randomBytes_length n source : length (randomBytes n source) = n.
Proof. unfold randomBytes. by rewrite length_fmap, length_seq. Qed.

Lemma randomBytes_bytes n source : Forall (λ b, b < 256) (randomBytes n source).
Proof.
  unfold randomBytes. apply Forall_fmap, Forall_forall. intros i _. simpl.
  by apply N.mod_lt.
Qed.

Lemma hex_digit_lower d : d < 16 → is_lower_hex (hex_digit d) = true.
Proof.
  intros Hd. unfold hex_digit, is_lower_hex, is_digit.
  destruct (d <? 10) eqn:E.
  - apply N.ltb_lt in E. apply orb_true_iff. left.
    apply andb_true_iff. split; apply N.leb_le; lia.
  - apply N.ltb_ge in E. apply orb_true_iff. right.
    apply andb_true_iff. split; apply N.leb_le; lia.
Qed.

Lemma toString_hex_cons b bytes :
  toString_hex (b :: bytes)
  = hex_digit (b / 16) :: hex_digit (b mod 16) :: toString_hex bytes.
Proof. reflexivity. Qed.

Lemma toString_hex_length bytes :
  length (toString_hex bytes) = (2 * length bytes)%nat.
Proof.
  induction bytes as [|b bytes IH]; [done|].
  rewrite toString_hex_cons. simpl length. rewrite IH. lia.
Qed.

Lemma toString_hex_lower bytes :
  Forall (λ b, b < 256) bytes →
  Forall (λ c, is_lower_hex c = true) (toString_hex bytes).
Proof.
  induction 1 as [|b bytes Hb _ IH]; [constructor|].
  rewrite toString_hex_cons.
  constructor; [|constructor; [|exact IH]]; apply hex_digit_lower.
  - apply N.Div0.div_lt_upper_bound. lia.
  - by apply N.mod_lt.
Qed.

Lemma is_lower_hex_not_slash c : is_lower_hex c = true → c ≠ Path.slash.
Proof.
  unfold is_lower_hex, is_digit, Path.slash. intros H ->. by vm_compute in H.
Qed.

Lemma generateSafeFilename_pattern env :
  matches_filename_pattern (generateSafeFilename env) = true.
Proof.
  unfold generateSafeFilename.
  destruct (number_toString_digits (now env)) as (d & ds & -> & Hds).
  inversion Hds as [|?? Hd Hds']; subst.
  pose proof (randomBytes_length 8 (entropy env)) as Hlen.
  pose proof (toString_hex_lower _ (randomBytes_bytes 8 (entropy env))) as Hhex.
  pose proof (toString_hex_length (randomBytes 8 (entropy env))) as Hlen'.
  rewrite Hlen in Hlen'.
  set (hex := toString_hex _) in *.
  change ((d :: ds) ++ js "-" ++ hex ++ js ".webp")
    with (d :: (ds ++ 45 :: (hex ++ js ".webp"))).
  unfold matches_filename_pattern. rewrite Hd, skip_digits_app by done.
  rewrite take_app_length', drop_app_length' by done.
  rewrite N.eqb_refl, !bool_decide_eq_true_2 by done.
  assert (forallb is_lower_hex hex = true) as ->; [|done].
  clear -Hhex. revert Hhex. generalize hex. clear hex.
  induction 1 as [|c l Hc _ IH]; simpl; [done|]. by rewrite Hc.
Qed.

Lemma generateSafeFilename_plain env : plain_name (generateSafeFilename env).
Proof.
  unfold generateSafeFilename.
  destruct (number_toString_digits (now env)) as (d & ds & -> & Hds).
  pose proof (toString_hex_lower _ (randomBytes_bytes 8 (entropy env))) as Hhex.
  generalize dependent (toString_hex (randomBytes 8 (entropy env))). intros hex Hhex.
  assert (∀ other : JsString.t, (length other < 3)%nat →
            (d :: ds) ++ js "-" ++ hex ++ js ".webp" ≠ other) as Hlong.
  { intros other Hother Heq. apply (f_equal length) in Heq.
    rewrite !length_app in Heq. simpl in Heq. lia. }
  split; [done|]. split; [|split; apply Hlong; simpl; lia].
  repeat apply Forall_app_2.
  - eapply Forall_impl; [exact Hds|]. intros c Hc.
    apply is_lower_hex_not_slash. unfold is_lower_hex. by rewrite Hc.
  - by repeat constructor.
  - eapply Forall_impl; [exact Hhex|]. apply is_lower_hex_not_slash.
  - by repeat constructor.
Qed.

(** ** The path check *)

Lemma path_check_plain config env f :
  Path.isAbsolute (cwd env) = true → plain_name f →
  path_check config env f = true
  ∧ Path.dirname (Path.resolve (cwd env) [uploadDir config; f])
    = Path.resolve (cwd env) [uploadDir config].
Proof.
  intros Habs Hf. unfold path_check.
  destruct (resolve_plain (cwd env) (uploadDir config) f Habs Hf)
    as (segs & Hsegs & -> & ->).
  split; [|by apply dirname_join].
  rewrite join_snoc. case_bool_decide as Hnil.
  - subst. reflexivity.
  - apply (startsWith_app (Path.slash :: Path.join segs)).
Qed.

(** ** The middleware *)

Lemma authenticateAPIKey_header config req req' :
  authorization req = authorization req' →
  authenticateAPIKey config req = authenticateAPIKey config req'.
Proof. unfold authenticateAPIKey. by intros ->. Qed.

Lemma authenticateAPIKey_respond config req r :
  authenticateAPIKey config req = Ok (Respond r) → status r = 401 ∨ status r = 403.
Proof.
  unfold authenticateAPIKey.
  destruct (authorization req) as [authHeader|]; [|intros [= <-]; by left].
  destruct (_ || _); [intros [= <-]; by left|].
  destruct (negb _); [intros [= <-]; by right|].
  destruct (Crypto.timingSafeEqual _ _) as [[]|]; simpl; [done| |done].
  intros [= <-]. by right.
Qed.

(** ** The upload handler *)

Lemma upload_single_parsed parts file :
  upload_single parts = Multer.Parsed (Some file) →
  parts = [file]
  ∧ Multer.fieldname file = js "image"
  ∧ Multer.mimetype file ∈ allowedMimes
  ∧ Sharp.byteLength (Multer.buffer file) < 10485760.
Proof.
  unfold upload_single, Multer.single.
  destruct parts as [|part more]; [done|].
  unfold JsString.eqb. case_bool_decide as Hname; simpl; [|done].
  unfold fileFilter.
  destruct (existsb _ allowedMimes) eqn:Hmime; [|done].
  destruct (_ <=? Sharp.byteLength _) eqn:Hsize; [done|].
  destruct (_ <? N.of_nat _) eqn:Hcount; [done|].
  apply N.ltb_ge in Hcount.
  destruct more as [|another more]; [|simpl length in Hcount; lia].
  intros [= <-]. apply N.leb_gt in Hsize.
  split; [done|]. split; [done|]. split; [|exact Hsize].
  apply existsb_exists in Hmime as (m & Hin & Heq).
  apply bool_decide_eq_true in Heq. subst m. by apply list_elem_of_In.
Qed.

Lemma on_processing_error_status error :
  status (on_processing_error error) = 507
  ∨ status (on_processing_error error) = 400
  ∨ status (on_processing_error error) = 500.
Proof.
  unfold on_processing_error.
  destruct (bool_decide _); [by left|]. destruct (includes _ _); simpl; auto.
Qed.

(** What a successful run of the [try] block has done. *)
Lemma process_image_inv config env file store resp store' :
  process_image config env file store = (Ok resp, store') →
  ∃ meta,
    Sharp.byteLength (Multer.buffer file) ≠ 0
    ∧ Sharp.content (Multer.buffer file) = Sharp.Image meta None
    ∧ disk env = Sharp.Written
    ∧ path_check config env (generateSafeFilename env) = true
    ∧ store_image config env file meta (generateSafeFilename env) store
      = (Ok resp, store')
    ∧ store' =
        <[Path.resolve (cwd env) [uploadDir config; generateSafeFilename env] :=
            WebPFile
              (mkWebP (Sharp.rotate (Sharp.orientation meta)
                         (Sharp.width meta, Sharp.height meta)).1
                      (Sharp.rotate (Sharp.orientation meta)
                         (Sharp.width meta, Sharp.height meta)).2
                      (if JsString.eqb (Sharp.format meta) (js "gif")
                       then Sharp.pages meta else 1)
                      80 4)]> store.
Proof.
  unfold process_image, Sharp.metadata.
  destruct (Sharp.open (Multer.buffer file)) as [meta|] eqn:Hopen; [|done].
  intros Hstore. exists meta.
  pose proof Hstore as Hstore0. revert Hstore.
  unfold store_image, Sharp.toFile. rewrite Hopen.
  unfold Sharp.open in Hopen.
  destruct (Sharp.byteLength (Multer.buffer file) =? 0) eqn:Hlen; [done|].
  apply N.eqb_neq in Hlen.
  destruct (Sharp.content (Multer.buffer file)) as [| |meta' fault]; [done..|].
  injection Hopen as ->.
  destruct (path_check _ _ _); [|done]. cbn [negb].
  destruct fault; [done|].
  destruct (disk env); [|done]. intros [= <- <-]. done.
Qed.

(** A request answered with 201 went through the whole pipeline. *)
Lemma post_upload_created config env req store resp store' :
  post_upload config env req store = (resp, store') → status resp = 201 →
  ∃ file,
    authenticateAPIKey config req = Ok Next
    ∧ upload_single (file_parts req) = Multer.Parsed (Some file)
    ∧ process_image config env file store = (Ok resp, store').
Proof.
  unfold post_upload.
  destruct (authenticateAPIKey config req) as [[r|]|err] eqn:Hauth.
  - intros [= <- <-] Hst.
    apply authenticateAPIKey_respond in Hauth as [H|H]; rewrite H in Hst; done.
  - unfold upload_callback.
    destruct (upload_single (file_parts req)) as [c m|e|[file|]] eqn:Hup.
    + destruct (JsString.eqb c _); intros [= <- <-]; done.
    + intros [= <- <-]; done.
    + destruct (process_image config env file store) as [[resp0|error] store0] eqn:Hp.
      * intros [= <- <-] _. by exists file.
      * intros [= <- <-] Hst.
        destruct (on_processing_error_status error) as [H|[H|H]];
          rewrite H in Hst; done.
    + intros [= <- <-]; done.
  - intros [= <- <-]; done.
Qed.

(** The response to a stored upload. *)
Lemma store_image_response config env file meta filename store resp store' :
  store_image config env file meta filename store = (Ok resp, store') →
  status resp = 201
  ∧ get "filename" (body resp) = Some (JString filename)
  ∧ get "url" (body resp) = Some (JString (baseUrl config ++ js "/images/" ++ filename))
  ∧ get "originalFormat" (body resp) = Some (JString (Sharp.format meta))
  ∧ get "size" (body resp)
    = Some (JObject [("width"%string, JNumber (Sharp.width meta));
                     ("height"%string, JNumber (Sharp.height meta))]).
Proof.
  unfold store_image. destruct (negb _); [done|].
  destruct (Sharp.toFile _ _ _ _ _ _) as [[[]|error] store0]; [|done].
  intros [= <- <-]. done.
Qed.

(** ** Stored size and reported size *)

(** The file stored for an accepted upload has the reported size turned
    by the EXIF orientation, and as many frames as the [isGif] flag
    selects. *)
Lemma accepted_upload_stored config env req store resp store' :
  post_upload config env req store = (resp, store') → status resp = 201 →
  ∃ file meta webp,
    file_parts req = [file]
    ∧ Sharp.content (Multer.buffer file) = Sharp.Image meta None
    ∧ get "filename" (body resp) = Some (JString (generateSafeFilename env))
    ∧ get "size" (body resp)
      = Some (JObject [("width"%string, JNumber (Sharp.width meta));
                       ("height"%string, JNumber (Sharp.height meta))])
    ∧ served config env store' (generateSafeFilename env) = Some webp
    ∧ (webp_width webp, webp_height webp)
      = Sharp.rotate (Sharp.orientation meta) (Sharp.width meta, Sharp.height meta)
    ∧ webp_frames webp
      = if JsString.eqb (Sharp.format meta) (js "gif") then Sharp.pages meta else 1.
Proof.
  intros Hpost Hst.
  destruct (post_upload_created _ _ _ _ _ _ Hpost Hst) as (file & _ & Hup & Hproc).
  apply upload_single_parsed in Hup as (Hparts & _).
  apply process_image_inv in Hproc as (meta & _ & Hcontent & _ & _ & Hstore & ->).
  apply store_image_response in Hstore as (_ & Hname & _ & _ & Hsize).
  eexists file, meta, _. repeat split; try done.
  - unfold served, static_file. by rewrite lookup_insert_eq.
  - simpl. by destruct (Sharp.rotate _ _).
  - reflexivity.
Qed.

(** C1: the size field of the 201 response is the size read by
    [metadata()] before [rotate()]; for a 4x3 JPEG with EXIF orientation 6
    the upload is accepted, the response reports width 4 and height 3,
    and the file stored and served under the returned name is 3 wide and
    4 high. *)
Theorem reported_size_of_rotated_upload :
  let req := Sample.request Sample.key (Sample.upload "image/jpeg" 2048 Sample.rotated_jpeg) in
  let result := post_upload Sample.config Sample.env req ∅ in
  status result.1 = 201
  ∧ get "size" (body result.1)
    = Some (JObject [("width"%string, JNumber 4); ("height"%string, JNumber 3)])
  ∧ get "filename" (body result.1) = Some (JString (generateSafeFilename Sample.env))
  ∧ (λ webp, (webp_width webp, webp_height webp))
      <$> served Sample.config Sample.env result.2 (generateSafeFilename Sample.env)
    = Some (3, 4).
Proof. vm_compute. done. Qed.

(** ** Animation *)

(** C2, as stated, fails: an animated WebP of three frames is a
    multi-frame source; the upload is accepted and a single still frame is
    stored. *)
Lemma animated_webp_stored_still :
  let req := Sample.request Sample.key (Sample.upload "image/webp" 2048 Sample.animated_webp) in
  let result := post_upload Sample.config Sample.env req ∅ in
  Sharp.pages <$> Sharp.metadata (Sharp.mkInput 2048 Sample.animated_webp) = Ok 3
  ∧ status result.1 = 201
  ∧ webp_frames <$> served Sample.config Sample.env result.2 (generateSafeFilename Sample.env)
    = Some 1.
Proof. vm_compute. done. Qed.

(** C2, amended: for every accepted upload the animated flag is true
    exactly when the decoded source format is GIF; when it is true every
    frame of the source is encoded, otherwise one still frame is, also
    when the source has several frames. *)
Theorem frames_follow_gif_flag config env req store resp store' :
  post_upload config env req store = (resp, store') → status resp = 201 →
  ∃ file meta webp,
    file_parts req = [file]
    ∧ Sharp.content (Multer.buffer file) = Sharp.Image meta None
    ∧ served config env store' (generateSafeFilename env) = Some webp
    ∧ (Sharp.format meta = js "gif" → webp_frames webp = Sharp.pages meta)
    ∧ (Sharp.format meta ≠ js "gif" → webp_frames webp = 1).
Proof.
  intros Hpost Hst.
  destruct (accepted_upload_stored _ _ _ _ _ _ Hpost Hst)
    as (file & meta & webp & Hparts & Hcontent & _ & _ & Hserved & _ & Hframes).
  exists file, meta, webp. repeat split; try done.
  - intros Hgif. unfold JsString.eqb in Hframes.
    by rewrite bool_decide_eq_true_2 in Hframes.
  - intros Hgif. unfold JsString.eqb in Hframes.
    by rewrite bool_decide_eq_false_2 in Hframes.
Qed.

Lemma frames_follow_gif_flag_witness :
  let req := Sample.request Sample.key (Sample.upload "image/gif" 2048 Sample.animated_gif) in
  ∃ file meta webp,
    file_parts req = [file]
    ∧ Sharp.content (Multer.buffer file) = Sharp.Image meta None
    ∧ served Sample.config Sample.env
        (post_upload Sample.config Sample.env req ∅).2
        (generateSafeFilename Sample.env) = Some webp
    ∧ (Sharp.format meta = js "gif" → webp_frames webp = Sharp.pages meta)
    ∧ (Sharp.format meta ≠ js "gif" → webp_frames webp = 1).
Proof.
  intros req.
  apply (frames_follow_gif_flag Sample.config Sample.env req ∅
           (post_upload Sample.config Sample.env req ∅).1).
  - by destruct (post_upload Sample.config Sample.env req ∅).
  - vm_compute. reflexivity.
Defined.

(** ** Path verification *)

(** C3: for every generated file name the check of server.js:128 passes
    exactly when the directory component of the resolved output path is
    the resolved upload directory (both hold); and whenever the check
    fails for a name, the [try] block throws and the [catch] block answers
    500 with the message of the error. *)
Theorem path_verification config env :
  Path.isAbsolute (cwd env) = true →
  (path_check config env (generateSafeFilename env) = true
   ↔ Path.dirname (Path.resolve (cwd env) [uploadDir config; generateSafeFilename env])
     = Path.resolve (cwd env) [uploadDir config])
  ∧ path_check config env (generateSafeFilename env) = true
  ∧ ∀ file meta name store,
      path_check config env name = false →
      store_image config env file meta name store
      = (Throw (Error "Invalid file path"), store)
      ∧ on_processing_error (Error "Invalid file path")
        = mkResponse 500 (JObject
            [("error"%string, JString (js "Failed to process image"));
             ("message"%string, JString (js "Invalid file path"))]).
Proof.
  intros Habs.
  destruct (path_check_plain config env _ Habs (generateSafeFilename_plain env))
    as [Hcheck Hdir].
  split; [by split|]. split; [done|].
  intros file meta name store Hfail. split; [|reflexivity].
  unfold store_image. by rewrite Hfail.
Qed.

Lemma path_verification_witness :
  Path.isAbsolute (cwd Sample.env) = true
  ∧ path_check Sample.config Sample.env (generateSafeFilename Sample.env) = true
  ∧ path_check Sample.config Sample.env (js "../elsewhere/1-ab.webp") = false
  ∧ store_image Sample.config Sample.env
      (Sample.upload "image/jpeg" 2048 Sample.rotated_jpeg)
      (Sharp.mkMetadata (js "jpeg") 4 3 (Some 6) 1)
      (js "../elsewhere/1-ab.webp") ∅
    = (Throw (Error "Invalid file path"), ∅).
Proof.
  assert (Path.isAbsolute (cwd Sample.env) = true) as Habs by reflexivity.
  destruct (path_verification Sample.config Sample.env Habs) as (_ & Hcheck & Hfail).
  assert (path_check Sample.config Sample.env (js "../elsewhere/1-ab.webp") = false)
    as Hbad by (vm_compute; reflexivity).
  split; [exact Habs|]. split; [exact Hcheck|]. split; [exact Hbad|].
  exact (proj1 (Hfail _ _ _ ∅ Hbad)).
Defined.

(** The check is a prefix test on strings: for a name that is not a
    generated one it can pass although the directory component is not the
    upload directory. *)
Remark path_check_is_prefix_test :
  let name := js "../uploads-old/1-ab.webp" in
  path_check Sample.config Sample.env name = true
  ∧ Path.dirname (Path.resolve (cwd Sample.env) [uploadDir Sample.config; name])
    = js "/srv/image-server/uploads-old"
  ∧ Path.resolve (cwd Sample.env) [uploadDir Sample.config]
    = js "/srv/image-server/uploads".
Proof. vm_compute. done. Qed.

(** ** Error responses of the processing stage *)

(** C10: when the [try] block of an upload throws and the [catch] block
    answers 500, the body is the fixed error string together with a
    [message] field that holds the message of the exception unchanged;
    the store is as the [try] block left it. *)
Theorem unclassified_error_body config env req file store error store' :
  authenticateAPIKey config req = Ok Next →
  upload_single (file_parts req) = Multer.Parsed (Some file) →
  process_image config env file store = (Throw error, store') →
  status (post_upload config env req store).1 = 500 →
  post_upload config env req store
  = (mkResponse 500 (JObject
       [("error"%string, JString (js "Failed to process image"));
        ("message"%string, JString (message error))]), store').
Proof.
  unfold post_upload, upload_callback. intros -> -> ->. unfold on_processing_error.
  destruct (bool_decide _); [done|]. destruct (includes _ _); done.
Qed.

Lemma unclassified_error_body_witness :
  let file := Sample.upload "image/jpeg" 2048 Sample.truncated_jpeg in
  post_upload Sample.config Sample.env (Sample.request Sample.key file) ∅
  = (mkResponse 500 (JObject
       [("error"%string, JString (js "Failed to process image"));
        ("message"%string, JString (js "VipsJpeg: premature end of JPEG image"))]), ∅).
Proof.
  intros file.
  apply (unclassified_error_body Sample.config Sample.env
           (Sample.request Sample.key file) file ∅
           (mkError None (js "VipsJpeg: premature end of JPEG image")) ∅);
    vm_compute; reflexivity.
Defined.

Lemma includes_prefix (s p : JsString.t) : includes (p ++ s) p = true.
Proof. destruct p; simpl; [by destruct s|]. by rewrite N.eqb_refl, startsWith_app. Qed.

(** C7: a JPEG whose header loads and whose pixel data is cut off is
    authenticated, within the size limit and of an allowed type; it cannot
    be decoded, [metadata()] does not notice, [toFile] throws with the
    loader's message, and the answer is 500, not 400. *)
Theorem truncated_jpeg_is_500 :
  let file := Sample.upload "image/jpeg" 2048 Sample.truncated_jpeg in
  let result := post_upload Sample.config Sample.env (Sample.request Sample.key file) ∅ in
  authenticateAPIKey Sample.config (Sample.request Sample.key file) = Ok Next
  ∧ upload_single [file] = Multer.Parsed (Some file)
  ∧ process_image Sample.config Sample.env file ∅
    = (Throw (mkError None (js "VipsJpeg: premature end of JPEG image")), ∅)
  ∧ status result.1 = 500.
Proof. vm_compute. done. Qed.

(** The failures that the [catch] block does classify: for every
    authenticated upload that multer accepts and whose non-empty buffer
    sharp cannot open as an image (no loader takes it, or its header is
    corrupt), the answer is 400 with the fixed invalid-image body, and
    nothing is stored. *)
Lemma unreadable_image_is_400 config env req file store :
  authenticateAPIKey config req = Ok Next →
  upload_single (file_parts req) = Multer.Parsed (Some file) →
  Sharp.byteLength (Multer.buffer file) ≠ 0 →
  (Sharp.content (Multer.buffer file) = Sharp.Unsupported
   ∨ ∃ detail, Sharp.content (Multer.buffer file) = Sharp.CorruptHeader detail) →
  post_upload config env req store
  = (mkResponse 400 (JObject
       [("error"%string, JString (js "Invalid or corrupted image file."))]), store).
Proof.
  intros Hauth Hup Hlen Hcontent. unfold post_upload. rewrite Hauth, Hup.
  unfold upload_callback, process_image, Sharp.metadata, Sharp.open.
  apply N.eqb_neq in Hlen. rewrite Hlen.
  destruct Hcontent as [-> | [detail ->]].
  - reflexivity.
  - unfold on_processing_error. cbn [code message].
    rewrite bool_decide_eq_false_2 by done.
    change (js "Input buffer has corrupt header: " ++ detail)
      with (js "Input buffer" ++ js " has corrupt header: " ++ detail).
    by rewrite includes_prefix.
Qed.

Example unreadable_png_is_400 :
  let file := Sample.upload "image/png" 2048 (Sharp.CorruptHeader (js "pngload_buffer: not a PNG")) in
  status (post_upload Sample.config Sample.env (Sample.request Sample.key file) ∅).1 = 400.
Proof.
  intros file.
  rewrite (unreadable_image_is_400 Sample.config Sample.env
             (Sample.request Sample.key file) file ∅).
  - reflexivity.
  - vm_compute. reflexivity.
  - vm_compute. reflexivity.
  - vm_compute. discriminate.
  - right. eexists. reflexivity.
Defined.

(** An empty file is refused by the constructor of sharp with a message
    that the [catch] block does not recognise either. *)
Example empty_upload_is_500 :
  let file := Sample.upload "image/png" 0 Sharp.Unsupported in
  post_upload Sample.config Sample.env (Sample.request Sample.key file) ∅
  = (mkResponse 500 (JObject
       [("error"%string, JString (js "Failed to process image"));
        ("message"%string, JString (js "Input Buffer is empty"))]), ∅).
Proof. by vm_compute. Qed.

(** ** The size limit *)

Lemma upload_single_size file rest :
  Multer.fieldname file = js "image" →
  Multer.mimetype file ∈ allowedMimes →
  upload_single (file :: rest)
  = if 10485760 <=? Sharp.byteLength (Multer.buffer file)
    then Multer.MulterError (js "LIMIT_FILE_SIZE") (js "File too large")
    else if 1 <? N.of_nat (length (file :: rest))
    then Multer.MulterError (js "LIMIT_FILE_COUNT") (js "Too many files")
    else Multer.Parsed (Some file).
Proof.
  intros Hname Hmime.
  unfold upload_single, Multer.single, JsString.eqb, fileFilter.
  rewrite bool_decide_eq_true_2 by done. cbn [negb].
  assert (existsb (JsString.eqb (Multer.mimetype file)) allowedMimes = true) as ->.
  { apply existsb_exists. exists (Multer.mimetype file).
    split; [by apply list_elem_of_In|]. by apply bool_decide_eq_true_2. }
  reflexivity.
Qed.

(** Where the limit lies: in an authenticated request with one file part
    under the field [image] and of an allowed type, a content of fewer
    than 10,485,760 bytes is handed to the image pipeline, and a content
    of 10,485,760 bytes or more is answered 413 whatever it holds, with
    nothing stored. *)
Lemma upload_size_limit config env req file store :
  authenticateAPIKey config req = Ok Next →
  file_parts req = [file] →
  Multer.fieldname file = js "image" →
  Multer.mimetype file ∈ allowedMimes →
  (Sharp.byteLength (Multer.buffer file) < 10485760 →
     upload_single (file_parts req) = Multer.Parsed (Some file))
  ∧ (10485760 ≤ Sharp.byteLength (Multer.buffer file) →
     upload_single (file_parts req)
       = Multer.MulterError (js "LIMIT_FILE_SIZE") (js "File too large")
     ∧ post_upload config env req store
       = (mkResponse 413 (JObject
            [("error"%string, JString (js "File too large. Maximum size is 10MB."))]),
          store)).
Proof.
  intros Hauth Hparts Hname Hmime.
  unfold post_upload. rewrite Hauth, Hparts, upload_single_size by done. split.
  - intros Hsize. apply N.leb_gt in Hsize. by rewrite Hsize.
  - intros Hsize. apply N.leb_le in Hsize. by rewrite Hsize.
Qed.

(** C6: an authenticated upload of a valid image of exactly 10,485,760
    bytes is not accepted: the size has reached [limits.fileSize], multer
    reports [LIMIT_FILE_SIZE], and the answer is 413 'Maximum size is
    10MB' with nothing stored; the same image in 10,485,759 bytes is
    answered 201. *)
Theorem exact_limit_upload_is_413 :
  let exact := Sample.upload "image/jpeg" 10485760 Sample.rotated_jpeg in
  let below := Sample.upload "image/jpeg" 10485759 Sample.rotated_jpeg in
  Multer.fileSize limits = 10485760
  ∧ authenticateAPIKey Sample.config (Sample.request Sample.key exact) = Ok Next
  ∧ upload_single [exact]
    = Multer.MulterError (js "LIMIT_FILE_SIZE") (js "File too large")
  ∧ post_upload Sample.config Sample.env (Sample.request Sample.key exact) ∅
    = (mkResponse 413 (JObject
         [("error"%string, JString (js "File too large. Maximum size is 10MB."))]), ∅)
  ∧ status (post_upload Sample.config Sample.env (Sample.request Sample.key below) ∅).1
    = 201.
Proof. by vm_compute. Qed.

(** ** File names *)

Lemma process_image_buffer config env file file' store :
  Multer.buffer file = Multer.buffer file' →
  process_image config env file store = process_image config env file' store.
Proof. unfold process_image, store_image. by intros ->. Qed.

(** The answer to a request does not depend on the declared file names. *)
Lemma post_upload_declared_name config env req req' store :
  authorization req = authorization req' →
  Forall2 same_but_name (file_parts req) (file_parts req') →
  post_upload config env req store = post_upload config env req' store.
Proof.
  intros Hauth Hparts. unfold post_upload.
  rewrite (authenticateAPIKey_header config req req' Hauth).
  destruct (authenticateAPIKey config req') as [[r|]|err]; [done| |done].
  unfold upload_single, Multer.single.
  pose proof (Forall2_length _ _ _ Hparts) as Hlen.
  destruct Hparts as [|part part' more more' (Hname & Hmime & Hbuf) _]; [done|].
  unfold fileFilter. rewrite Hname, Hmime, Hbuf.
  destruct (negb _); [done|]. destruct (existsb _ _); [|done].
  destruct (_ <=? Sharp.byteLength _); [done|].
  rewrite Hlen. destruct (_ <? N.of_nat _); [done|].
  unfold upload_callback. by rewrite (process_image_buffer _ _ part part').
Qed.

Lemma js_string s : string_of_list_ascii (ascii_of_N <$> js s) = s.
Proof.
  unfold js. induction s as [|a s IH]; [done|].
  cbn [list_ascii_of_string fmap list_fmap string_of_list_ascii] in *.
  by rewrite ascii_N_embedding, IH.
Qed.

Lemma read_decimal_number n : read_decimal (number_toString n) = Some n.
Proof.
  unfold read_decimal.
  destruct (number_toString_digits n) as (d & ds & Hn & Hds).
  assert (forallb is_digit (number_toString n) = true) as ->.
  { rewrite Hn. clear Hn. induction Hds as [|c l Hc _ IH]; simpl; [done|].
    by rewrite Hc. }
  unfold number_toString. rewrite js_string.
  pose proof (DecimalN.Unsigned.of_to n) as Hof.
  destruct (N.to_uint n) as [|u|u|u|u|u|u|u|u|u|u] eqn:Hu;
    [rewrite NilZero.usu_nil; cbv [fmap option_fmap option_map]; by rewrite <- Hof
    |rewrite NilZero.usu by done; cbv [fmap option_fmap option_map]; by rewrite Hof ..].
Qed.

Lemma take_digits_app ds c rest :
  Forall (λ c, is_digit c = true) ds → is_digit c = false →
  take_digits (ds ++ c :: rest) = ds.
Proof.
  intros Hds Hc. induction Hds as [|d ds Hd _ IH]; simpl.
  - by rewrite Hc.
  - by rewrite Hd, IH.
Qed.

Lemma hex_value_digit d : d < 16 → hex_value (hex_digit d) = Some d.
Proof.
  intros Hd. unfold hex_value, hex_digit, is_digit.
  destruct (d <? 10) eqn:E.
  - apply N.ltb_lt in E.
    assert (((48 <=? 48 + d) && (48 + d <=? 57)) = true) as ->.
    { apply andb_true_iff. split; apply N.leb_le; lia. }
    f_equal. lia.
  - apply N.ltb_ge in E.
    assert (((48 <=? 87 + d) && (87 + d <=? 57)) = false) as ->.
    { apply andb_false_iff. right. apply N.leb_gt. lia. }
    assert (((97 <=? 87 + d) && (87 + d <=? 102)) = true) as ->.
    { apply andb_true_iff. split; apply N.leb_le; lia. }
    f_equal. lia.
Qed.

(** Hexadecimal text read back gives the bytes it was written from. *)
Lemma read_hex_toString bytes :
  Forall (λ b, b < 256) bytes → read_hex (toString_hex bytes) = Some bytes.
Proof.
  induction 1 as [|b bytes Hb _ IH]; [done|].
  rewrite toString_hex_cons. cbn [read_hex].
  rewrite (hex_value_digit (b / 16)) by (apply N.Div0.div_lt_upper_bound; lia).
  rewrite (hex_value_digit (b mod 16)) by (by apply N.mod_lt).
  rewrite IH. cbn [mbind option_bind]. by rewrite <- N.div_mod.
Qed.

(** A generated name reads back as the millisecond of the clock and the
    first eight bytes of the random source. *)
Lemma read_generateSafeFilename env :
  read_filename (generateSafeFilename env)
  = Some (now env, (λ i, entropy env i mod 256) <$> seq 0 8).
Proof.
  unfold generateSafeFilename, read_filename.
  pose proof (read_decimal_number (now env)) as Hread.
  destruct (number_toString_digits (now env)) as (d & ds & Hn & Hds).
  rewrite Hn in Hread |- *.
  pose proof (randomBytes_length 8 (entropy env)) as Hlen.
  pose proof (read_hex_toString _ (randomBytes_bytes 8 (entropy env))) as Hhex.
  pose proof (toString_hex_length (randomBytes 8 (entropy env))) as Hlen'.
  rewrite Hlen in Hlen'.
  change ((d :: ds) ++ js "-" ++ ?x) with ((d :: ds) ++ 45 :: x).
  rewrite skip_digits_app, take_digits_app by done.
  rewrite take_app_length', drop_app_length' by done.
  rewrite N.eqb_refl, bool_decide_eq_true_2 by done. cbn [andb].
  rewrite Hread, Hhex. reflexivity.
Qed.

(** C8: the name under which an accepted upload is stored and which the
    response returns matches [^\d+-[0-9a-f]{16}\.webp$]; read back, its
    digits are the decimal form of the millisecond the clock showed and
    its sixteen hexadecimal characters are the first eight bytes that the
    random source gave; and a request that differs only in the file names
    the client declared gets the same answer. *)
Theorem stored_filename_shape config env req store resp store' :
  post_upload config env req store = (resp, store') → status resp = 201 →
  ∃ name,
    get "filename" (body resp) = Some (JString name)
    ∧ is_Some (served config env store' name)
    ∧ matches_filename_pattern name = true
    ∧ read_filename name
      = Some (now env,
              [entropy env 0%nat mod 256; entropy env 1%nat mod 256;
               entropy env 2%nat mod 256; entropy env 3%nat mod 256;
               entropy env 4%nat mod 256; entropy env 5%nat mod 256;
               entropy env 6%nat mod 256; entropy env 7%nat mod 256])
    ∧ ∀ req', authorization req' = authorization req →
              Forall2 same_but_name (file_parts req) (file_parts req') →
              post_upload config env req' store = (resp, store').
Proof.
  intros Hpost Hst.
  destruct (accepted_upload_stored _ _ _ _ _ _ Hpost Hst)
    as (file & meta & webp & _ & _ & Hname & _ & Hserved & _).
  exists (generateSafeFilename env).
  split; [done|]. split; [by rewrite Hserved|].
  split; [apply generateSafeFilename_pattern|].
  split; [apply read_generateSafeFilename|].
  intros req' Hauth Hparts. rewrite <- Hpost. symmetry.
  by apply post_upload_declared_name.
Qed.

Lemma stored_filename_shape_witness :
  let req := Sample.request Sample.key (Sample.upload "image/jpeg" 2048 Sample.rotated_jpeg) in
  ∃ name,
    get "filename" (body (post_upload Sample.config Sample.env req ∅).1)
    = Some (JString name)
    ∧ matches_filename_pattern name = true
    ∧ read_filename name
      = Some (1709020800000, [200; 237; 18; 55; 92; 129; 166; 203]).
Proof.
  intros req.
  destruct (stored_filename_shape Sample.config Sample.env req ∅
              (post_upload Sample.config Sample.env req ∅).1
              (post_upload Sample.config Sample.env req ∅).2)
    as (name & Hname & _ & Hpattern & Hread & _).
  - by destruct (post_upload Sample.config Sample.env req ∅).
  - vm_compute. reflexivity.
  - exists name. split; [exact Hname|]. split; [exact Hpattern|]. exact Hread.
Defined.

(** ** UTF-8 bytes of Latin-1 strings *)

Section utf8_facts.
Import Buffer.

Lemma testbit_above c n m : c < 2 ^ n → n ≤ m → N.testbit c m = false.
Proof.
  intros Hc Hnm. destruct (N.eq_dec c 0) as [->|Hpos]; [apply N.bits_0|].
  apply N.bits_above_log2, N.log2_lt_pow2; [lia|].
  eapply N.lt_le_trans; [exact Hc|]. apply N.pow_le_mono_r; lia.
Qed.

(** Evaluate the bits of the constants in a hypothesis. *)
Ltac const_bits H :=
  repeat match type of H with
         | context [N.testbit (N.pos ?p) ?n] =>
             let v := eval vm_compute in (N.testbit (N.pos p) n) in
             change (N.testbit (N.pos p) n) with v in H
         | context [N.add (N.pos ?p) (N.pos ?q)] =>
             let v := eval vm_compute in (N.add (N.pos p) (N.pos q)) in
             change (N.add (N.pos p) (N.pos q)) with v in H
         | context [N.add N0 (N.pos ?q)] =>
             change (N.add N0 (N.pos q)) with (N.pos q) in H
         end.

Ltac bit_of H n Hb :=
  pose proof (f_equal (λ x, N.testbit x n) H) as Hb; cbv beta in Hb;
  rewrite ?N.lor_spec, ?N.land_spec, ?N.shiftr_spec' in Hb;
  const_bits Hb; cbn [orb andb] in Hb; rewrite ?andb_true_r in Hb.

Lemma utf8_2_inj c k : c < 0x800 → k < 0x800 → utf8_2 c = utf8_2 k → c = k.
Proof.
  intros Hc Hk [= Hhi Hlo]. apply N.bits_inj. intros n.
  destruct (N.lt_ge_cases n 11) as [Hn|Hn].
  - assert (n = 0 ∨ n = 1 ∨ n = 2 ∨ n = 3 ∨ n = 4 ∨ n = 5
            ∨ n = 6 ∨ n = 7 ∨ n = 8 ∨ n = 9 ∨ n = 10) as Hcases by lia.
    destruct Hcases as [->|[->|[->|[->|[->|[->|[->|[->|[->|[->| ->]]]]]]]]]].
    + bit_of Hlo 0 Hb. exact Hb.
    + bit_of Hlo 1 Hb. exact Hb.
    + bit_of Hlo 2 Hb. exact Hb.
    + bit_of Hlo 3 Hb. exact Hb.
    + bit_of Hlo 4 Hb. exact Hb.
    + bit_of Hlo 5 Hb. exact Hb.
    + bit_of Hhi 0 Hb. exact Hb.
    + bit_of Hhi 1 Hb. exact Hb.
    + bit_of Hhi 2 Hb. exact Hb.
    + bit_of Hhi 3 Hb. exact Hb.
    + bit_of Hhi 4 Hb. exact Hb.
  - change 0x800 with (2 ^ 11) in Hc, Hk.
    by rewrite (testbit_above c 11 n), (testbit_above k 11 n).
Qed.

(** The first byte tells how many bytes a character takes. *)
Lemma from_cons_cases k ks :
  (k < 0x80 ∧ from (k :: ks) = k :: from ks)
  ∨ (0x80 ≤ k < 0x800 ∧ from (k :: ks) = utf8_2 k ++ from ks)
  ∨ (0x800 ≤ k ∧ ∃ b bs, from (k :: ks) = b :: bs
                         ∧ N.testbit b 7 = true ∧ N.testbit b 5 = true).
Proof.
  cbn [from].
  destruct (k <? 0x80) eqn:H1; [left; split; [by apply N.ltb_lt|done]|].
  apply N.ltb_ge in H1.
  destruct (k <? 0x800) eqn:H2; [right; left; split; [|done]; apply N.ltb_lt in H2; lia|].
  apply N.ltb_ge in H2. right. right. split; [done|].
  destruct (is_high_surrogate k); [destruct ks as [|d ks']; [|destruct (is_low_surrogate d)]|
    destruct (is_low_surrogate k)];
    eexists _, _; (split; [reflexivity|]); rewrite ?N.lor_spec; split; reflexivity.
Qed.

Lemma from_inj_latin1 token :
  latin1 token → ∀ key, length token = length key → from token = from key → token = key.
Proof.
  induction 1 as [|c t Hc _ IH]; intros [|k ks] Hlen Hbytes; try done.
  injection Hlen as Hlen.
  assert (N.testbit c 11 = false) as Hc11.
  { apply (testbit_above c 8); [exact Hc|lia]. }
  destruct (from_cons_cases c t) as [[Hlow Ec]|[[Hmid Ec]|[Hhigh _]]]; [| |lia];
    destruct (from_cons_cases k ks) as [[Hlow' Ek]|[[Hmid' Ek]|[Hhigh' (b & bs & Ek & Hb7 & Hb5)]]];
    rewrite Ec, Ek in Hbytes.
  - injection Hbytes as -> Hrest. f_equal. by apply IH.
  - injection Hbytes as Hhead _. bit_of Hhead 7 Hb.
    rewrite (testbit_above c 7 7) in Hb; [done| exact Hlow | lia].
  - injection Hbytes as -> _. rewrite (testbit_above b 7 7) in Hb7; [done|exact Hlow|lia].
  - injection Hbytes as Hhead _. bit_of Hhead 7 Hb.
    rewrite (testbit_above k 7 7) in Hb; [done|exact Hlow'|lia].
  - injection Hbytes as Hhi Hlo Hrest.
    assert (c = k) as ->.
    { apply utf8_2_inj; [lia|lia|]. unfold utf8_2. by rewrite Hhi, Hlo. }
    f_equal. by apply IH.
  - injection Hbytes as Hhead _. rewrite <- Hhead in Hb5.
    rewrite N.lor_spec, N.shiftr_spec' in Hb5.
    change (5 + 6) with 11 in Hb5. by rewrite Hc11 in Hb5.
Qed.

End utf8_facts.

(** ** The credential check *)

Lemma authenticateAPIKey_missing config req :
  (authorization req = None
   ∨ ∃ h, authorization req = Some h ∧ startsWith h (js "Bearer ") = false) →
  ∃ r, authenticateAPIKey config req = Ok (Respond r) ∧ status r = 401.
Proof.
  unfold authenticateAPIKey. intros [-> | (h & -> & ->)]; [by eexists|].
  rewrite orb_true_r. by eexists.
Qed.

Lemma bearer_nonempty token : bool_decide (js "Bearer " ++ token = []) = false.
Proof. by apply bool_decide_eq_false_2. Qed.

Lemma authenticateAPIKey_length config req token :
  authorization req = Some (js "Bearer " ++ token) →
  length token ≠ length (apiKey config) →
  ∃ r, authenticateAPIKey config req = Ok (Respond r) ∧ status r = 403.
Proof.
  unfold authenticateAPIKey. intros -> Hlen.
  rewrite startsWith_app, bearer_nonempty.
  change (substring (js "Bearer " ++ token) 7) with token.
  rewrite bool_decide_eq_false_2 by done. by eexists.
Qed.

Lemma authenticateAPIKey_match config req :
  authorization req = Some (js "Bearer " ++ apiKey config) →
  authenticateAPIKey config req = Ok Next.
Proof.
  unfold authenticateAPIKey, Crypto.timingSafeEqual. intros ->.
  rewrite startsWith_app, bearer_nonempty.
  change (substring (js "Bearer " ++ apiKey config) 7) with (apiKey config).
  by rewrite !bool_decide_eq_true_2.
Qed.

Lemma authenticateAPIKey_mismatch config req token :
  authorization req = Some (js "Bearer " ++ token) →
  length token = length (apiKey config) →
  length (Buffer.from token) = length (Buffer.from (apiKey config)) →
  Buffer.from token ≠ Buffer.from (apiKey config) →
  ∃ r, authenticateAPIKey config req = Ok (Respond r) ∧ status r = 403.
Proof.
  unfold authenticateAPIKey, Crypto.timingSafeEqual. intros -> Hlen Hbytes Hne.
  rewrite startsWith_app, bearer_nonempty.
  change (substring (js "Bearer " ++ token) 7) with token.
  rewrite !bool_decide_eq_true_2 by done. cbn [negb orb mbind result_bind].
  rewrite bool_decide_eq_false_2 by done. by eexists.
Qed.

(** Equally many characters and not equally many bytes: the comparison
    throws. *)
Lemma authenticateAPIKey_throws config req token :
  authorization req = Some (js "Bearer " ++ token) →
  length token = length (apiKey config) →
  length (Buffer.from token) ≠ length (Buffer.from (apiKey config)) →
  authenticateAPIKey config req
  = Throw (mkError (Some (js "ERR_CRYPTO_TIMING_SAFE_EQUAL_LENGTH"))
                   (js "Input buffers must have the same byte length")).
Proof.
  unfold authenticateAPIKey, Crypto.timingSafeEqual. intros -> Hlen Hbytes.
  rewrite startsWith_app, bearer_nonempty.
  change (substring (js "Bearer " ++ token) 7) with token.
  rewrite bool_decide_eq_true_2 by done. cbn [negb orb].
  by rewrite bool_decide_eq_false_2.
Qed.

Lemma authenticateAPIKey_next config req :
  authenticateAPIKey config req = Ok Next →
  ∃ token, authorization req = Some (js "Bearer " ++ token)
           ∧ length token = length (apiKey config)
           ∧ Buffer.from token = Buffer.from (apiKey config).
Proof.
  unfold authenticateAPIKey, Crypto.timingSafeEqual.
  destruct (authorization req) as [h|]; [|done].
  destruct (bool_decide (h = [])); [done|].
  destruct (startsWith h (js "Bearer ")) eqn:Hprefix; [|done].
  apply startsWith_prefix in Hprefix as [token ->].
  change (substring (js "Bearer " ++ token) 7) with token.
  cbn [negb orb]. case_bool_decide as Hlen; [|done]. cbn [negb].
  case_bool_decide; [|done]. cbn [mbind result_bind].
  case_bool_decide as Hbytes; [|done]. intros _. by exists token.
Qed.

(** A Latin-1 header that is not the prefix followed by the key is not
    passed on. *)
Lemma invalid_credential_rejected config req :
  (∀ h, authorization req = Some h → latin1 h) →
  authorization req ≠ Some (js "Bearer " ++ apiKey config) →
  authenticateAPIKey config req ≠ Ok Next.
Proof.
  intros Hlatin Hinvalid Hnext.
  apply authenticateAPIKey_next in Hnext as (token & Hh & Hlen & Hbytes).
  apply Hinvalid. rewrite Hh. do 2 f_equal.
  apply from_inj_latin1; [|done..].
  specialize (Hlatin _ Hh). unfold latin1 in *. by apply Forall_app in Hlatin as [_ ?].
Qed.

(** A request that the middleware does not pass on is answered from the
    header and the key alone, with 401, 403 or 500, and the store is left
    as it was. *)
Lemma rejected_request config env req store :
  authenticateAPIKey config req ≠ Ok Next →
  (post_upload config env req store).2 = store
  ∧ (post_upload config env req store).1
    = match authenticateAPIKey config req with
      | Ok (Respond r) => r
      | _ => error_handler (Error "")
      end
  ∧ (status (post_upload config env req store).1 = 401
     ∨ status (post_upload config env req store).1 = 403
     ∨ status (post_upload config env req store).1 = 500).
Proof.
  unfold post_upload. intros Hrej.
  destruct (authenticateAPIKey config req) as [[r|]|err] eqn:Hauth; [|done|].
  - apply authenticateAPIKey_respond in Hauth. simpl. tauto.
  - simpl. auto.
Qed.

(** C4: a token of the same length as the key that holds a character
    outside ASCII is not answered 403: its UTF-8 bytes are more than the
    key's, [crypto.timingSafeEqual] throws, and the error handler answers
    500. *)
Theorem accented_token_throws :
  let req := Sample.request Sample.accented_token
               (Sample.upload "image/jpeg" 2048 Sample.rotated_jpeg) in
  latin1 Sample.accented_token
  ∧ length Sample.accented_token = length (apiKey Sample.config)
  ∧ Sample.accented_token ≠ apiKey Sample.config
  ∧ length (Buffer.from Sample.accented_token) = 33%nat
  ∧ length (Buffer.from (apiKey Sample.config)) = 32%nat
  ∧ authenticateAPIKey Sample.config req
    = Throw (mkError (Some (js "ERR_CRYPTO_TIMING_SAFE_EQUAL_LENGTH"))
                     (js "Input buffers must have the same byte length"))
  ∧ status (post_upload Sample.config Sample.env req ∅).1 = 500.
Proof.
  split; [|by vm_compute].
  vm_compute. repeat constructor.
Qed.

(** C5: the request with that token carries no token equal to the key;
    it is answered 500, neither 401 nor 403, and nothing is stored. *)
Theorem accented_token_status :
  let req := Sample.request Sample.accented_token
               (Sample.upload "image/jpeg" 2048 Sample.rotated_jpeg) in
  authorization req ≠ Some (js "Bearer " ++ apiKey Sample.config)
  ∧ post_upload Sample.config Sample.env req ∅
    = (mkResponse 500 (JObject [("error"%string, JString (js "Internal server error"))]), ∅).
Proof. by vm_compute. Qed.

(** C9: two requests with the same Authorization header that is not the
    prefix followed by the key get the same response, whatever else they
    carry and whatever the clock, the random source, the disk and the
    store are; and neither changes the store. *)
Theorem rejection_is_deterministic config req req' env env' store store' :
  authorization req' = authorization req →
  (∀ h, authorization req = Some h → latin1 h) →
  authorization req ≠ Some (js "Bearer " ++ apiKey config) →
  (post_upload config env req store).1 = (post_upload config env' req' store').1
  ∧ status (post_upload config env req store).1
    = status (post_upload config env' req' store').1
  ∧ (post_upload config env req store).2 = store
  ∧ (post_upload config env' req' store').2 = store'.
Proof.
  intros Hsame Hlatin Hinvalid.
  pose proof (invalid_credential_rejected config req Hlatin Hinvalid) as Hrej.
  pose proof Hrej as Hrej'.
  rewrite <- (authenticateAPIKey_header config req' req Hsame) in Hrej'.
  destruct (rejected_request config env req store Hrej) as (Hstore & Hresp & _).
  destruct (rejected_request config env' req' store' Hrej') as (Hstore' & Hresp' & _).
  assert ((post_upload config env req store).1 = (post_upload config env' req' store').1)
    as Heq.
  { by rewrite Hresp, Hresp', (authenticateAPIKey_header config req' req Hsame). }
  split; [done|]. split; [by rewrite Heq|]. done.
Qed.

Lemma rejection_is_deterministic_witness :
  let wrong := js "00000000000000000000000000000000" in
  let req := Sample.request wrong (Sample.upload "image/jpeg" 2048 Sample.rotated_jpeg) in
  let req' := Sample.request wrong (Sample.upload "image/gif" 4096 Sample.animated_gif) in
  let env' := mkEnv (js "/") 1709020800001 (λ _, 7) (Sharp.WriteFails (js "EIO")) in
  status (post_upload Sample.config Sample.env req ∅).1 = 403
  ∧ status (post_upload Sample.config env' req' ∅).1 = 403
  ∧ (post_upload Sample.config Sample.env req ∅).2 = ∅.
Proof.
  intros wrong req req' env'.
  destruct (rejection_is_deterministic Sample.config req req' Sample.env env' ∅ ∅)
    as (_ & Hstatus & Hstore & _).
  - reflexivity.
  - intros h [= <-]. vm_compute. repeat constructor.
  - vm_compute. discriminate.
  - split; [|split; [|exact Hstore]].
    + vm_compute. reflexivity.
    + rewrite <- Hstatus. vm_compute. reflexivity.
Defined.

(** * Further properties of the upload route *)

(** ** Who passes the middleware *)

(** X1: for a header as Node delivers it, the middleware of server.js:42-62
    passes a request on exactly when the header is the scheme prefix
    followed by the configured key. *)
Theorem authenticated_iff_exact_key config req :
  (∀ h, authorization req = Some h → latin1 h) →
  authenticateAPIKey config req = Ok Next
  ↔ authorization req = Some (js "Bearer " ++ apiKey config).
Proof.
  intros Hlatin. split; [|apply authenticateAPIKey_match].
  intros Hnext.
  destruct (decide (authorization req = Some (js "Bearer " ++ apiKey config)))
    as [|Hne]; [done|].
  by destruct (invalid_credential_rejected config req Hlatin Hne).
Qed.

Lemma authenticated_iff_exact_key_witness :
  let req := Sample.request Sample.key (Sample.upload "image/jpeg" 2048 Sample.rotated_jpeg) in
  let req' := Sample.request (js "0123456789abcdef0123456789abcdeF")
                (Sample.upload "image/jpeg" 2048 Sample.rotated_jpeg) in
  authenticateAPIKey Sample.config req = Ok Next
  ∧ authenticateAPIKey Sample.config req' ≠ Ok Next.
Proof.
  intros req req'. split.
  - apply (authenticated_iff_exact_key Sample.config req); [|reflexivity].
    intros h [= <-]. vm_compute. repeat constructor.
  - intros Hnext.
    apply (authenticated_iff_exact_key Sample.config req') in Hnext.
    + vm_compute in Hnext. discriminate.
    + intros h [= <-]. vm_compute. repeat constructor.
Defined.

Lemma from_ascii s : ascii_only s → Buffer.from s = s.
Proof.
  induction 1 as [|c s Hc _ IH]; [done|]. cbn [Buffer.from].
  apply N.ltb_lt in Hc. by rewrite Hc, IH.
Qed.

(** X2: with an ASCII key and an ASCII header the comparison never throws:
    the middleware answers 401 or 403 or passes the request on. *)
Theorem ascii_credentials_never_throw config req :
  ascii_only (apiKey config) →
  (∀ h, authorization req = Some h → ascii_only h) →
  authenticateAPIKey config req = Ok Next
  ∨ ∃ r, authenticateAPIKey config req = Ok (Respond r)
         ∧ (status r = 401 ∨ status r = 403).
Proof.
  intros Hkey Hheader.
  destruct (authenticateAPIKey config req) as [[r|]|err] eqn:Hauth.
  - right. exists r. split; [done|]. by apply authenticateAPIKey_respond in Hauth.
  - by left.
  - exfalso. revert Hauth. unfold authenticateAPIKey, Crypto.timingSafeEqual.
    destruct (authorization req) as [h|] eqn:Hh; [|done].
    specialize (Hheader h eq_refl).
    destruct (bool_decide (h = [])); [done|].
    destruct (startsWith h (js "Bearer ")) eqn:Hprefix; [|done].
    apply startsWith_prefix in Hprefix as [token ->].
    apply Forall_app in Hheader as [_ Htoken].
    change (substring (js "Bearer " ++ token) 7) with token.
    cbn [negb orb]. case_bool_decide as Hlen; [|done]. cbn [negb].
    rewrite !from_ascii by done. rewrite bool_decide_eq_true_2 by done.
    cbn [mbind result_bind]. by destruct (negb _).
Qed.

Lemma ascii_credentials_never_throw_witness :
  let req := Sample.request (js "0123456789abcdef0123456789abcdeF")
               (Sample.upload "image/jpeg" 2048 Sample.rotated_jpeg) in
  authenticateAPIKey Sample.config req = Ok Next
  ∨ ∃ r, authenticateAPIKey Sample.config req = Ok (Respond r)
         ∧ (status r = 401 ∨ status r = 403).
Proof.
  intros req. apply ascii_credentials_never_throw.
  - vm_compute. repeat constructor.
  - intros h [= <-]. vm_compute. repeat constructor.
Defined.

(** X3: once the start-up check of server.js:19-23 has let the process run,
    every Bearer token of at least one and fewer than 32 characters is
    answered 403 by the length guard. *)
Theorem short_token_is_403 config req token :
  startup_ok config = true →
  authorization req = Some (js "Bearer " ++ token) →
  (0 < length token < 32)%nat →
  ∃ r, authenticateAPIKey config req = Ok (Respond r) ∧ status r = 403.
Proof.
  unfold startup_ok. intros Hstart Hh Hshort.
  apply negb_true_iff, orb_false_iff in Hstart as [_ Hlen].
  apply Nat.ltb_ge in Hlen.
  apply (authenticateAPIKey_length config req token Hh). lia.
Qed.

Lemma short_token_is_403_witness :
  let req := Sample.request (js "0123456789abcdef")
               (Sample.upload "image/jpeg" 2048 Sample.rotated_jpeg) in
  ∃ r, authenticateAPIKey Sample.config req = Ok (Respond r) ∧ status r = 403.
Proof.
  intros req. apply (short_token_is_403 Sample.config req (js "0123456789abcdef")).
  - reflexivity.
  - reflexivity.
  - vm_compute. split; repeat constructor.
Defined.

(** The scheme alone, as a header that ends after [Bearer] arrives, is
    answered 401. *)
Example bare_scheme_is_401 :
  ∃ r, authenticateAPIKey Sample.config (mkRequest (Some (js "Bearer")) [])
       = Ok (Respond r) ∧ status r = 401.
Proof. by eexists. Qed.

(** ** What the route answers and what it writes *)

Lemma process_image_created config env file store resp store' :
  process_image config env file store = (Ok resp, store') → status resp = 201.
Proof.
  intros Hproc.
  apply process_image_inv in Hproc as (meta & _ & _ & _ & _ & Hstore & _).
  by apply store_image_response in Hstore as [? _].
Qed.

(** X4: every answer of [POST /upload] carries one of the seven status codes
    201, 400, 401, 403, 413, 500 and 507. *)
Theorem post_upload_statuses config env req store :
  status (post_upload config env req store).1 ∈ upload_statuses.
Proof.
  unfold post_upload, upload_statuses.
  destruct (authenticateAPIKey config req) as [[r|]|err] eqn:Hauth; simpl.
  - apply authenticateAPIKey_respond in Hauth as [-> | ->]; set_solver.
  - unfold upload_callback.
    destruct (upload_single (file_parts req)) as [c m|e|[file|]]; simpl.
    + destruct (JsString.eqb c _); simpl; set_solver.
    + set_solver.
    + destruct (process_image config env file store) as [[resp|error] store'] eqn:Hp;
        simpl.
      * apply process_image_created in Hp as ->. set_solver.
      * destruct (on_processing_error_status error) as [-> | [-> | ->]]; set_solver.
    + set_solver.
  - set_solver.
Qed.

(** What toFile leaves in the store: what was there, or that and one file
    at the path it was given. *)
Lemma toFile_store input options webpOptions path disk store :
  (Sharp.toFile input options webpOptions path disk store).2 = store
  ∨ ∃ written, (Sharp.toFile input options webpOptions path disk store).2
               = <[path := written]> store.
Proof.
  unfold Sharp.toFile. destruct (Sharp.open input); [|by left].
  destruct (Sharp.content input) as [| |meta [fault|]];
    try (by left); destruct disk; right; by eexists.
Qed.

(** What a request leaves in the store: what was there, or that and
    one file at the output path of its generated name. *)
Lemma post_upload_store config env req store :
  (post_upload config env req store).2 = store
  ∨ ∃ written, (post_upload config env req store).2
               = <[Path.resolve (cwd env) [uploadDir config; generateSafeFilename env]
                   := written]> store.
Proof.
  unfold post_upload.
  destruct (authenticateAPIKey config req) as [[r|]|err]; [by left| |by left].
  unfold upload_callback.
  destruct (upload_single (file_parts req)) as [c m|e|[file|]];
    [|by left| |by left].
  - destruct (JsString.eqb c _); by left.
  - assert ((process_image config env file store).2 = store
            ∨ ∃ written, (process_image config env file store).2
                = <[Path.resolve (cwd env) [uploadDir config; generateSafeFilename env]
                    := written]> store) as Hstore.
    { unfold process_image. destruct (Sharp.metadata _); [|by left].
      unfold store_image. destruct (negb _); [by left|].
      match goal with
      | |- context [Sharp.toFile ?i ?o ?w ?p ?d ?s] =>
          pose proof (toFile_store i o w p d s) as Hto;
          destruct (Sharp.toFile i o w p d s) as [[[]|error] store0]
      end; exact Hto. }
    destruct (process_image config env file store) as [[resp|error] store0]; exact Hstore.
Qed.

(** X5: a request changes no stored file other than the one at the output
    path of its own generated name, whatever it carries and however it
    ends. *)
Theorem post_upload_frame config env req store path :
  path ≠ Path.resolve (cwd env) [uploadDir config; generateSafeFilename env] →
  (post_upload config env req store).2 !! path = store !! path.
Proof.
  intros Hpath.
  destruct (post_upload_store config env req store) as [-> | [written ->]]; [done|].
  by rewrite lookup_insert_ne.
Qed.

Lemma post_upload_frame_witness :
  let req := Sample.request Sample.key (Sample.upload "image/jpeg" 2048 Sample.rotated_jpeg) in
  let old := WebPFile (mkWebP 1 1 1 80 4) in
  let path := js "/srv/image-server/uploads/1-0000000000000000.webp" in
  (post_upload Sample.config Sample.env req {[path := old]}).2 !! path = Some old.
Proof.
  intros req old path.
  rewrite (post_upload_frame Sample.config Sample.env req {[path := old]} path).
  - apply lookup_singleton_eq.
  - vm_compute. discriminate.
Defined.

(** X6: whatever multer reports other than a parsed file is answered 400 or
    413 and nothing is stored; 413 is the answer exactly to the error
    code [LIMIT_FILE_SIZE] (server.js:101-115). *)
Theorem upload_rejections config env outcome store :
  (∀ file, outcome ≠ Multer.Parsed (Some file)) →
  (upload_callback config env outcome store).2 = store
  ∧ (status (upload_callback config env outcome store).1 = 400
     ∨ status (upload_callback config env outcome store).1 = 413)
  ∧ (status (upload_callback config env outcome store).1 = 413
     ↔ ∃ msg, outcome = Multer.MulterError (js "LIMIT_FILE_SIZE") msg).
Proof.
  intros Hrej. unfold upload_callback.
  destruct outcome as [c m|e|[file|]]; [| |by destruct (Hrej file)|]; simpl.
  - unfold JsString.eqb. case_bool_decide as Hc; simpl.
    + subst c. split; [done|]. split; [by right|]. split; [eauto|done].
    + split; [done|]. split; [by left|]. split; [done|].
      intros [msg [= -> _]]. done.
  - split; [done|]. split; [by left|]. split; [done|]. by intros [msg ?].
  - split; [done|]. split; [by left|]. split; [done|]. by intros [msg ?].
Qed.

Lemma upload_rejections_witness :
  let outcome := Multer.MulterError (js "LIMIT_UNEXPECTED_FILE") (js "Unexpected field") in
  status (upload_callback Sample.config Sample.env outcome ∅).1 = 400
  ∧ (upload_callback Sample.config Sample.env outcome ∅).2 = ∅.
Proof.
  intros outcome.
  destruct (upload_rejections Sample.config Sample.env outcome ∅)
    as (Hstore & [H400|H413] & Hiff).
  - intros file. discriminate.
  - by split.
  - apply Hiff in H413 as [msg Hmsg]. vm_compute in Hmsg. discriminate.
Defined.

(** X7: an authenticated upload under the field [image] whose declared type
    is none of the four allowed ones is answered 400 with the message of
    the filter, whatever its content and size, and nothing is stored
    (server.js:71-78 and 108-110). *)
Theorem unsupported_type_is_400 config env req file more store :
  authenticateAPIKey config req = Ok Next →
  file_parts req = file :: more →
  Multer.fieldname file = js "image" →
  Multer.mimetype file ∉ allowedMimes →
  post_upload config env req store
  = (mkResponse 400 (JObject
       [("error"%string, JString (js
          "Invalid file type. Only JPEG, PNG, WebP, and GIF images are allowed."))]),
     store).
Proof.
  intros Hauth Hparts Hname Hmime.
  unfold post_upload, upload_single, Multer.single, fileFilter.
  rewrite Hauth, Hparts. unfold JsString.eqb at 1.
  rewrite bool_decide_eq_true_2 by done. cbn [negb].
  destruct (existsb _ allowedMimes) eqn:Hex; [|reflexivity].
  apply existsb_exists in Hex as (m & Hin & Heq).
  apply bool_decide_eq_true in Heq. subst m.
  by apply list_elem_of_In in Hin.
Qed.

Lemma unsupported_type_is_400_witness :
  let file := Sample.upload "image/svg+xml" 20000000 Sharp.Unsupported in
  status (post_upload Sample.config Sample.env (Sample.request Sample.key file) ∅).1 = 400.
Proof.
  intros file.
  rewrite (unsupported_type_is_400 Sample.config Sample.env
             (Sample.request Sample.key file) file [] ∅).
  - reflexivity.
  - vm_compute. reflexivity.
  - reflexivity.
  - reflexivity.
  - intros Hin. apply list_elem_of_In in Hin. vm_compute in Hin.
    repeat (destruct Hin as [Hin|Hin]; [discriminate|]). done.
Defined.

(** ** Write failures *)



(** ** The stored file and its address *)

Lemma resolve_plain_path cwd root f :
  Path.isAbsolute cwd = true → plain_name f →
  Path.resolve cwd [root; f]
  = (if bool_decide (Path.resolve cwd [root] = js "/")
     then [] else Path.resolve cwd [root]) ++ js "/" ++ f.
Proof.
  intros Habs Hf.
  destruct (resolve_plain cwd root f Habs Hf) as (segs & Hsegs & -> & ->).
  rewrite join_snoc. case_bool_decide as Hnil.
  - subst segs. by rewrite bool_decide_eq_true_2.
  - rewrite bool_decide_eq_false_2; [reflexivity|].
    intros [= Hjoin]. by apply (join_nonempty segs).
Qed.

(** X9: the output path of an upload is the resolved upload directory, a
    separator and the generated name, and nothing else: the file lies
    directly in the upload directory (server.js:124-125). *)
Theorem output_path_in_upload_dir config env :
  Path.isAbsolute (cwd env) = true →
  Path.resolve (cwd env) [uploadDir config; generateSafeFilename env]
  = (if bool_decide (Path.resolve (cwd env) [uploadDir config] = js "/")
     then [] else Path.resolve (cwd env) [uploadDir config])
    ++ js "/" ++ generateSafeFilename env.
Proof.
  intros Habs. apply resolve_plain_path; [done|].
  apply generateSafeFilename_plain.
Qed.

Lemma output_path_in_upload_dir_witness :
  Path.resolve (cwd Sample.env) [uploadDir Sample.config; generateSafeFilename Sample.env]
  = js "/srv/image-server/uploads/1709020800000-c8ed12375c81a6cb.webp".
Proof.
  rewrite (output_path_in_upload_dir Sample.config Sample.env); reflexivity.
Defined.

(** X10: the answer to an accepted upload names the stored file: its [url] is
    the base URL, [/images/] and the returned file name, the static route
    serves the new file under that name, and the file was encoded with
    quality 80 and effort 4 (server.js:39, 134 and 144-157). *)
Theorem accepted_upload_is_served config env req store resp store' :
  post_upload config env req store = (resp, store') → status resp = 201 →
  ∃ name webp,
    get "success" (body resp) = Some (JBool true)
    ∧ get "filename" (body resp) = Some (JString name)
    ∧ get "url" (body resp) = Some (JString (baseUrl config ++ js "/images/" ++ name))
    ∧ served config env store' name = Some webp
    ∧ webp_quality webp = 80 ∧ webp_effort webp = 4.
Proof.
  intros Hpost Hst.
  destruct (post_upload_created _ _ _ _ _ _ Hpost Hst) as (file & _ & _ & Hproc).
  apply process_image_inv in Hproc as (meta & _ & _ & _ & Hcheck & Hstore & ->).
  exists (generateSafeFilename env). eexists.
  split; [|split; [|split; [|split;
    [unfold served, static_file; by rewrite lookup_insert_eq|done]]]].
  - revert Hstore. unfold store_image. rewrite Hcheck. cbn [negb].
    destruct (Sharp.toFile _ _ _ _ _ _) as [[[]|error] store0]; [|done].
    by intros [= <- _].
  - by apply store_image_response in Hstore as (_ & ? & _).
  - by apply store_image_response in Hstore as (_ & _ & ? & _).
Qed.

Lemma accepted_upload_is_served_witness :
  let req := Sample.request Sample.key (Sample.upload "image/gif" 2048 Sample.animated_gif) in
  ∃ name webp,
    get "success" (body (post_upload Sample.config Sample.env req ∅).1) = Some (JBool true)
    ∧ get "filename" (body (post_upload Sample.config Sample.env req ∅).1)
      = Some (JString name)
    ∧ get "url" (body (post_upload Sample.config Sample.env req ∅).1)
      = Some (JString (baseUrl Sample.config ++ js "/images/" ++ name))
    ∧ served Sample.config Sample.env (post_upload Sample.config Sample.env req ∅).2 name
      = Some webp
    ∧ webp_quality webp = 80 ∧ webp_effort webp = 4.
Proof.
  intros req.
  apply (accepted_upload_is_served Sample.config Sample.env req ∅).
  - by destruct (post_upload Sample.config Sample.env req ∅).
  - vm_compute. reflexivity.
Defined.

(** X11: the declared type only has to be an allowed one: two requests that
    differ in nothing but the allowed types their parts declare get the
    same answer and leave the same store, so that the stored file and the
    reported [originalFormat] come from the bytes alone. *)
Theorem declared_type_is_not_compared config env req req' store :
  authorization req = authorization req' →
  Forall2 same_but_type (file_parts req) (file_parts req') →
  post_upload config env req store = post_upload config env req' store.
Proof.
  intros Hauth Hparts. unfold post_upload.
  rewrite (authenticateAPIKey_header config req req' Hauth).
  destruct (authenticateAPIKey config req') as [[r|]|err]; [done| |done].
  unfold upload_single, Multer.single.
  pose proof (Forall2_length _ _ _ Hparts) as Hlen.
  destruct Hparts as [|part part' more more' (Hname & Hbuf & Hmime & Hmime') _]; [done|].
  rewrite Hname, Hbuf. destruct (negb _); [done|].
  assert (∀ f, Multer.mimetype f ∈ allowedMimes → fileFilter f = Ok true) as Hfilter.
  { intros f Hf. unfold fileFilter.
    assert (existsb (JsString.eqb (Multer.mimetype f)) allowedMimes = true) as ->; [|done].
    apply existsb_exists. exists (Multer.mimetype f).
    split; [by apply list_elem_of_In|]. by apply bool_decide_eq_true_2. }
  rewrite !Hfilter by done.
  destruct (_ <=? Sharp.byteLength _); [done|].
  rewrite Hlen. destruct (_ <? N.of_nat _); [done|].
  unfold upload_callback. by rewrite (process_image_buffer _ _ part part').
Qed.

Lemma declared_type_is_not_compared_witness :
  let as_png := Sample.upload "image/png" 2048 Sample.rotated_jpeg in
  let as_gif := Sample.upload "image/gif" 2048 Sample.rotated_jpeg in
  post_upload Sample.config Sample.env (Sample.request Sample.key as_png) ∅
  = post_upload Sample.config Sample.env (Sample.request Sample.key as_gif) ∅
  ∧ get "originalFormat"
      (body (post_upload Sample.config Sample.env (Sample.request Sample.key as_png) ∅).1)
    = Some (JString (js "jpeg")).
Proof.
  intros as_png as_gif. split; [|by vm_compute].
  apply declared_type_is_not_compared; [reflexivity|].
  constructor; [|constructor].
  repeat split; apply list_elem_of_In; simpl; auto.
Defined.

(** ** Names and collisions *)

Lemma js_inj s s' : js s = js s' → s = s'.
Proof.
  unfold js. intros Heq.
  rewrite <- (string_of_list_ascii_of_string s), <- (string_of_list_ascii_of_string s').
  f_equal. revert Heq.
  generalize (list_ascii_of_string s) (list_ascii_of_string s'). clear.
  induction l as [|a l IH]; intros [|a' l']; try done.
  intros [= Ha Hl]. f_equal; [|by apply IH].
  by rewrite <- (ascii_N_embedding a), <- (ascii_N_embedding a'), Ha.
Qed.

Lemma number_toString_inj n n' : number_toString n = number_toString n' → n = n'.
Proof.
  unfold number_toString. intros Heq%js_inj.
  assert (∀ m, N.of_uint <$> NilZero.uint_of_string
                 (NilZero.string_of_uint (N.to_uint m)) = Some m) as Hread.
  { intros m. pose proof (DecimalN.Unsigned.of_to m) as Hm.
    destruct (N.to_uint m) as [|u|u|u|u|u|u|u|u|u|u] eqn:Hu;
      [rewrite NilZero.usu_nil; cbv [fmap option_fmap option_map]; by rewrite <- Hm
      |rewrite NilZero.usu by done; cbv [fmap option_fmap option_map]; by rewrite Hm ..]. }
  pose proof (Hread n) as Hn. rewrite Heq, Hread in Hn. by injection Hn.
Qed.

Lemma hex_digit_inj d d' : d < 16 → d' < 16 → hex_digit d = hex_digit d' → d = d'.
Proof.
  unfold hex_digit. intros Hd Hd'.
  destruct (d <? 10) eqn:E; destruct (d' <? 10) eqn:E';
    try apply N.ltb_lt in E; try apply N.ltb_lt in E';
    try apply N.ltb_ge in E; try apply N.ltb_ge in E'; lia.
Qed.

Lemma toString_hex_inj bytes bytes' :
  Forall (λ b, b < 256) bytes → Forall (λ b, b < 256) bytes' →
  toString_hex bytes = toString_hex bytes' → bytes = bytes'.
Proof.
  intros Hb. revert bytes'.
  induction Hb as [|b bytes Hlt _ IH]; intros bytes' Hb' Heq.
  - destruct bytes'; [done|]. by rewrite toString_hex_cons in Heq.
  - destruct Hb' as [|b' bytes' Hlt' Hb']; [by rewrite toString_hex_cons in Heq|].
    rewrite !toString_hex_cons in Heq. injection Heq as Hhi Hlo Hrest.
    apply hex_digit_inj in Hhi;
      [|apply N.Div0.div_lt_upper_bound; lia|apply N.Div0.div_lt_upper_bound; lia].
    apply hex_digit_inj in Hlo; [|by apply N.mod_lt|by apply N.mod_lt].
    f_equal; [|by apply IH].
    rewrite (N.div_mod b 16), (N.div_mod b' 16) by done. by rewrite Hhi, Hlo.
Qed.

(** Digits, then a character that is no digit: the digits are determined. *)
Lemma digits_prefix_inj ds ds' c rest rest' :
  Forall (λ d, is_digit d = true) ds → Forall (λ d, is_digit d = true) ds' →
  is_digit c = false →
  ds ++ c :: rest = ds' ++ c :: rest' → ds = ds' ∧ rest = rest'.
Proof.
  intros Hds. revert ds'.
  induction Hds as [|d ds Hd _ IH]; intros ds' Hds' Hc Heq.
  - destruct Hds' as [|d' ds' Hd' _]; [by injection Heq|].
    injection Heq as -> _. congruence.
  - destruct Hds' as [|d' ds' Hd' Hds']; [injection Heq as -> _; congruence|].
    injection Heq as -> Heq. destruct (IH ds' Hds' Hc Heq) as [-> ->]. done.
Qed.

(** X12: two generated names are the same only if the clock showed the same
    millisecond and the random source gave the same eight bytes
    (server.js:82-86). *)
Theorem generateSafeFilename_inj env env' :
  generateSafeFilename env = generateSafeFilename env' ↔
  now env = now env' ∧ randomBytes 8 (entropy env) = randomBytes 8 (entropy env').
Proof.
  unfold generateSafeFilename. split; [|by intros [-> ->]].
  intros Heq.
  destruct (number_toString_digits (now env)) as (d & ds & Hn & Hds).
  destruct (number_toString_digits (now env')) as (d' & ds' & Hn' & Hds').
  rewrite Hn, Hn' in Heq.
  change (js "-" ++ ?x) with (45 :: x) in Heq.
  apply digits_prefix_inj in Heq as [Hdigits Hrest]; [|done..].
  split.
  - apply number_toString_inj. by rewrite Hn, Hn', Hdigits.
  - apply app_inv_tail in Hrest.
    by apply toString_hex_inj in Hrest; [|apply randomBytes_bytes..].
Qed.

Lemma resolve_plain_inj cwd root f f' :
  Path.isAbsolute cwd = true → plain_name f → plain_name f' →
  Path.resolve cwd [root; f] = Path.resolve cwd [root; f'] → f = f'.
Proof.
  intros Habs Hf Hf'. rewrite !resolve_plain_path by done.
  intros Heq%app_inv_head. by injection Heq.
Qed.

(** X13: a stored upload is still served, unchanged, after any later request
    whose generated name is another one. *)
Theorem earlier_upload_survives config env env' req req' store resp store' :
  post_upload config env req store = (resp, store') → status resp = 201 →
  cwd env' = cwd env → Path.isAbsolute (cwd env) = true →
  generateSafeFilename env' ≠ generateSafeFilename env →
  is_Some (served config env store' (generateSafeFilename env))
  ∧ served config env' (post_upload config env' req' store').2 (generateSafeFilename env)
    = served config env store' (generateSafeFilename env).
Proof.
  intros Hpost Hst Hcwd Habs Hname.
  destruct (accepted_upload_stored _ _ _ _ _ _ Hpost Hst)
    as (_ & _ & webp & _ & _ & _ & _ & Hserved & _).
  split; [by rewrite Hserved|]. unfold served, static_file. rewrite Hcwd.
  destruct (post_upload_store config env' req' store') as [-> | [written ->]]; [done|].
  rewrite Hcwd, lookup_insert_ne; [done|]. intros Hpaths. apply Hname.
  apply (resolve_plain_inj (cwd env) (uploadDir config));
    [done|apply generateSafeFilename_plain..|done].
Qed.

Lemma earlier_upload_survives_witness :
  let req := Sample.request Sample.key (Sample.upload "image/jpeg" 2048 Sample.rotated_jpeg) in
  let req' := Sample.request Sample.key (Sample.upload "image/gif" 2048 Sample.animated_gif) in
  let env' := mkEnv (js "/srv/image-server") 1709020800001 (λ _, 7) Sharp.Written in
  let store' := (post_upload Sample.config Sample.env req ∅).2 in
  served Sample.config env' (post_upload Sample.config env' req' store').2
         (generateSafeFilename Sample.env)
  = served Sample.config Sample.env store' (generateSafeFilename Sample.env).
Proof.
  intros req req' env' store'.
  apply (earlier_upload_survives Sample.config Sample.env env' req req' ∅
           (post_upload Sample.config Sample.env req ∅).1 store').
  - by destruct (post_upload Sample.config Sample.env req ∅).
  - vm_compute. reflexivity.
  - reflexivity.
  - reflexivity.
  - vm_compute. discriminate.
Defined.

(** X14: no existence check precedes the write: when two accepted uploads
    get the same generated name, the second replaces the file of the
    first, and the store is as if the first had not happened. *)
Theorem same_name_overwrites config env env' req req' store resp store' resp' store'' :
  post_upload config env req store = (resp, store') → status resp = 201 →
  post_upload config env' req' store' = (resp', store'') → status resp' = 201 →
  cwd env' = cwd env →
  generateSafeFilename env' = generateSafeFilename env →
  store'' = (post_upload config env' req' store).2
  ∧ get "filename" (body resp') = get "filename" (body resp).
Proof.
  intros Hpost Hst Hpost' Hst' Hcwd Hname.
  destruct (post_upload_created _ _ _ _ _ _ Hpost Hst) as (file & _ & _ & Hproc).
  destruct (post_upload_created _ _ _ _ _ _ Hpost' Hst') as (file' & Hauth' & Hup' & Hproc').
  pose proof Hproc as Hproc0. pose proof Hproc' as Hproc0'.
  apply process_image_inv in Hproc as (meta & _ & _ & _ & _ & Hsi & ->).
  apply process_image_inv in Hproc'
    as (meta' & Hlen' & Hcontent' & Hdisk' & Hcheck' & Hsi' & ->).
  apply store_image_response in Hsi as (_ & Hfn & _).
  apply store_image_response in Hsi' as (_ & Hfn' & _).
  split; [|by rewrite Hfn, Hfn', Hname].
  unfold post_upload, upload_callback. rewrite Hauth', Hup'.
  unfold process_image, Sharp.metadata, Sharp.open.
  apply N.eqb_neq in Hlen'. rewrite Hlen', Hcontent'.
  unfold store_image, Sharp.toFile, Sharp.open.
  rewrite Hcheck', Hlen', Hcontent', Hdisk'. cbn [negb snd].
  rewrite Hcwd, Hname. apply insert_insert_eq.
Qed.

Lemma same_name_overwrites_witness :
  let req := Sample.request Sample.key (Sample.upload "image/jpeg" 2048 Sample.rotated_jpeg) in
  let req' := Sample.request Sample.key (Sample.upload "image/gif" 2048 Sample.animated_gif) in
  let store' := (post_upload Sample.config Sample.env req ∅).2 in
  (post_upload Sample.config Sample.env req' store').2
  = (post_upload Sample.config Sample.env req' ∅).2.
Proof.
  intros req req' store'.
  apply (same_name_overwrites Sample.config Sample.env Sample.env req req' ∅
           (post_upload Sample.config Sample.env req ∅).1 store'
           (post_upload Sample.config Sample.env req' store').1).
  - by destruct (post_upload Sample.config Sample.env req ∅).
  - vm_compute. reflexivity.
  - by destruct (post_upload Sample.config Sample.env req' store').
  - vm_compute. reflexivity.
  - reflexivity.
  - reflexivity.
Defined.

(** ** When an upload is accepted *)

(** X15: a request is answered 201 only if it carries the key and has
    exactly one file part, under the field [image], of an allowed
    declared type, not empty and of fewer than 10,485,760 bytes, whose
    content decodes as an image, and the write has succeeded. *)
Theorem accepted_only_if config env req store :
  status (post_upload config env req store).1 = 201 →
  ∃ file meta,
    authenticateAPIKey config req = Ok Next
    ∧ file_parts req = [file]
    ∧ Multer.fieldname file = js "image"
    ∧ Multer.mimetype file ∈ allowedMimes
    ∧ Sharp.byteLength (Multer.buffer file) < 10485760
    ∧ Sharp.byteLength (Multer.buffer file) ≠ 0
    ∧ Sharp.content (Multer.buffer file) = Sharp.Image meta None
    ∧ disk env = Sharp.Written.
Proof.
  intros Hst.
  destruct (post_upload config env req store) as [resp store'] eqn:Hpost.
  destruct (post_upload_created _ _ _ _ _ _ Hpost Hst) as (file & Hauth & Hup & Hproc).
  apply upload_single_parsed in Hup as (Hparts & Hname & Hmime & Hsize).
  apply process_image_inv in Hproc as (meta & Hlen & Hcontent & Hdisk & _).
  by exists file, meta.
Qed.

Lemma accepted_only_if_witness :
  let req := Sample.request Sample.key (Sample.upload "image/gif" 2048 Sample.animated_gif) in
  ∃ file meta,
    file_parts req = [file]
    ∧ Multer.mimetype file ∈ allowedMimes
    ∧ Sharp.byteLength (Multer.buffer file) < 10485760
    ∧ Sharp.content (Multer.buffer file) = Sharp.Image meta None.
Proof.
  intros req.
  destruct (accepted_only_if Sample.config Sample.env req ∅)
    as (file & meta & _ & Hparts & _ & Hmime & Hsize & _ & Hcontent & _).
  - vm_compute. reflexivity.
  - by exists file, meta.
Defined.
